(** * The agent-process streaming proxy of levered-client

    A shallow embedding of the three cooperating classes of the proxy
    ([OutputParser], [ClaudeManager], [SSEManager]) and of the JavaScript
    values they handle, followed by the properties of the stream decoder,
    the process supervisor and the event broadcaster. *)

From Stdlib Require Import String Ascii List ZArith QArith Qcanon Lia Bool.
From Stdlib Require Import DecimalString DecimalPos DecimalZ.
From stdpp Require Import base option list strings gmap.

Open Scope string_scope.
Open Scope list_scope.
Set Warnings "-register-all".

(** ** JavaScript strings

    A string is a sequence of code units; the model keeps the code units
    below 256, which is the alphabet of [Ascii.ascii]. *)

Module JsString.

Definition LF : ascii := Ascii.ascii_of_nat 10.
Definition CR : ascii := Ascii.ascii_of_nat 13.

(** [s.split("\n")]: the pieces between line feeds; never empty. *)
Fixpoint split_lines (s : string) : list string :=
  match s with
  | EmptyString => [EmptyString]
  | String c r =>
      if Ascii.eqb c LF then EmptyString :: split_lines r
      else match split_lines r with
           | l :: ls => String c l :: ls
           | [] => [String c EmptyString]
           end
  end.

(** [lines.pop()] on the array of [split]: the last element is taken off
    and returned ([None] for [undefined] on an empty array). *)
Fixpoint pop (l : list string) : list string * option string :=
  match l with
  | [] => ([], None)
  | [x] => ([], Some x)
  | x :: r => let '(i, o) := pop r in (x :: i, o)
  end.

(** White space and line terminators that [String.prototype.trim] strips. *)
Definition is_space (c : ascii) : bool :=
  let n := Ascii.nat_of_ascii c in
  ((9 <=? n)%nat && (n <=? 13)%nat) || (n =? 32)%nat || (n =? 160)%nat.

Fixpoint trim_start (s : string) : string :=
  match s with
  | String c r => if is_space c then trim_start r else s
  | EmptyString => EmptyString
  end.

(** Characters are dropped from the right end while they are spaces. *)
Fixpoint trim_end (s : string) : string :=
  match s with
  | EmptyString => EmptyString
  | String c r =>
      match trim_end r with
      | EmptyString => if is_space c then EmptyString else String c EmptyString
      | r' => String c r'
      end
  end.

Definition trim (s : string) : string := trim_end (trim_start s).

(** [s.startsWith(p)] and the remainder after the prefix. *)
Fixpoint strip_prefix (p s : string) : option string :=
  match p, s with
  | EmptyString, _ => Some s
  | String a p', String b s' =>
      if Ascii.eqb a b then strip_prefix p' s' else None
  | String _ _, EmptyString => None
  end.

(** First occurrence of [needle]: the text before it and the text after. *)
Fixpoint find_sub (needle s : string) : option (string * string) :=
  match strip_prefix needle s with
  | Some after => Some (EmptyString, after)
  | None =>
      match s with
      | EmptyString => None
      | String c r =>
          match find_sub needle r with
          | Some (b, a) => Some (String c b, a)
          | None => None
          end
      end
  end.

(** The complete lines of a text and the unfinished line at its end, read
    off in one pass. *)
Fixpoint scan (s : string) : list string * string :=
  match s with
  | EmptyString => ([], EmptyString)
  | String c r =>
      let '(ls, tl) := scan r in
      if Ascii.eqb c LF then (EmptyString :: ls, tl)
      else match ls with
           | [] => ([], String c tl)
           | l :: ls' => (String c l :: ls', tl)
           end
  end.

(** A text without line feed is all unfinished line. *)
Definition line_free (s : string) : Prop := scan s = ([], s).

(** The chunks of a stream put together. *)
Fixpoint concat_chunks (chunks : list string) : string :=
  match chunks with
  | [] => EmptyString
  | chunk :: rest => chunk +:+ concat_chunks rest
  end.

End JsString.

(** ** JavaScript values

    The values that [JSON.parse] builds, and [undefined], which reading an
    absent property gives. A number is kept as the exact rational that its
    literal denotes; the rounding to a double is not modelled. *)

Module Js.

Inductive value : Type :=
| VUndefined
| VNull
| VBool (b : bool)
| VNumber (q : Qc)
| VString (s : string)
| VArray (items : list value)
| VObject (fields : list (string * value)).

(** A statement either completes with a result or throws. *)
Inductive completion (A : Type) : Type :=
| Normal (a : A)
| Throw (err : string).
Arguments Normal {A} a.
Arguments Throw {A} err.

#[global] Instance completion_ret : MRet completion := fun A a => Normal a.
#[global] Instance completion_bind : MBind completion := fun A B f m =>
  match m with
  | Normal a => f a
  | Throw e => Throw e
  end.

(** [ToBoolean]. *)
Definition truthy (v : value) : bool :=
  match v with
  | VUndefined | VNull => false
  | VBool b => b
  | VNumber q => negb (Qc_eq_bool q (Q2Qc 0%Q))
  | VString s => negb (String.eqb s "")
  | VArray _ | VObject _ => true
  end.

(** [a || b]. *)
Definition or (a b : value) : value := if truthy a then a else b.

(** [v === "lit"]. *)
Definition is_str (v : value) (lit : string) : bool :=
  match v with
  | VString s => String.eqb s lit
  | _ => false
  end.

(** [a === b]. Objects and arrays are compared by identity: here the two
    sides always come from different allocations, so they differ. *)
Definition strict_eq (a b : value) : bool :=
  match a, b with
  | VUndefined, VUndefined | VNull, VNull => true
  | VBool x, VBool y => Bool.eqb x y
  | VNumber x, VNumber y => Qc_eq_bool x y
  | VString x, VString y => String.eqb x y
  | _, _ => false
  end.

(** An own property of an object literal; [JSON.parse] keeps the last of
    several members with one name. *)
Fixpoint own (k : string) (fields : list (string * value)) : option value :=
  match fields with
  | [] => None
  | (k', v) :: r =>
      match own k r with
      | Some w => Some w
      | None => if String.eqb k k' then Some v else None
      end
  end.

(** [v.k] for the property names this program reads; none of them is
    [length], an index or a member of a prototype, so that only an object
    can hold one. Reading a property of [null] or [undefined] throws. *)
Definition get (v : value) (k : string) : completion value :=
  match v with
  | VUndefined | VNull => Throw "TypeError: cannot read properties"
  | VObject fields => Normal (default VUndefined (own k fields))
  | _ => Normal VUndefined
  end.

(** [v.k] where reading it does not throw. *)
Definition field (v : value) (k : string) : value :=
  match get v k with
  | Normal x => x
  | Throw _ => VUndefined
  end.

Definition is_nullish (v : value) : bool :=
  match v with
  | VUndefined | VNull => true
  | _ => false
  end.

(** [v?.k]. *)
Definition get_opt (v : value) (k : string) : completion value :=
  match v with
  | VUndefined | VNull => Normal VUndefined
  | _ => get v k
  end.

(** The values a [for ... of] loop visits: the elements of an array, the
    characters of a string; anything else is not iterable. *)
Definition iterate (v : value) : completion (list value) :=
  match v with
  | VArray items => Normal items
  | VString s =>
      Normal (map (fun c => VString (String c EmptyString)) (list_ascii_of_string s))
  | _ => Throw "TypeError: not iterable"
  end.

End Js.
Import Js.

(** ** Events ([types/events.ts])

    One constructor per member of the union [ClaudeEvent]. The time stamp
    that every event carries is the clock reading at its construction; it is
    left out, events are compared up to it. Optional fields hold
    [VUndefined] when absent. *)

Inductive ClaudeEvent : Type :=
| ConnectedEvent (clientId : string)
| ThinkingEvent (content : value)
| ToolUseEvent (name input : value)
| ToolResultEvent (content success : value)
| MessageEvent (content : value)
| StatusEvent (status : string) (details : value)
| ErrorEvent (error stack : value)
| CompletedEvent (summary : value)
| RawOutputEvent (content : value) (ansi : bool).

(** The [type] field of an event, a member of [EventType]. *)
Definition event_type (e : ClaudeEvent) : string :=
  match e with
  | ConnectedEvent _ => "connected"
  | ThinkingEvent _ => "thinking"
  | ToolUseEvent _ _ => "tool_use"
  | ToolResultEvent _ _ => "tool_result"
  | MessageEvent _ => "message"
  | StatusEvent _ _ => "status"
  | ErrorEvent _ _ => "error"
  | CompletedEvent _ => "completed"
  | RawOutputEvent _ _ => "raw_output"
  end.

(** The members of [EventType]. *)
Definition EventType : list string :=
  ["connected"; "thinking"; "tool_use"; "tool_result"; "message"; "status";
   "error"; "completed"; "raw_output"].

(** The event types that the specification enumerates for the wire. *)
Definition spec_event_types : list string :=
  ["connected"; "thinking"; "tool_use"; "tool_result"; "message"; "status";
   "error"; "completed"].

(** The record kinds that are mapped by what they say they are: the
    values of [type] that the decoders map to an event of their own, and
    the assistant and user messages that have content blocks. *)
Definition mapped_record_types : list string :=
  ["error"; "thinking"; "tool_use"; "tool_result"; "message"; "content";
   "text"; "complete"; "completed"].

Definition explicitlyMapped (data : value) : bool :=
  existsb (is_str (field data "type")) mapped_record_types
  || ((is_str (field data "type") "assistant" || is_str (field data "type") "user")
      && truthy (field (field data "message") "content")).

(** ** The output parser ([OutputParser])

    [JSON.parse] belongs to the runtime and [stripAnsi] to a package; the
    class is modelled over both. [JSON_parse] gives [None] where
    [JSON.parse] throws a [SyntaxError]. *)

Module OutputParser.
Import JsString.

Record t : Type := mk {
  buffer : string;
  jsonBuffer : string;
  isJsonMode : bool
}.

(** [new OutputParser(jsonMode)]. *)
Definition create (jsonMode : bool) : t :=
  {| buffer := ""; jsonBuffer := ""; isJsonMode := jsonMode |}.

(** [reset()]. *)
Definition reset (p : t) : t :=
  {| buffer := ""; jsonBuffer := ""; isJsonMode := isJsonMode p |}.

(** [jsonToEvent(data)]; [Normal None] is the [null] result. *)
Definition jsonToEvent (data : value) : completion (option ClaudeEvent) :=
  ty ← get data "type";
  if is_str ty "thinking" then
    content ← get data "content"; text ← get data "text";
    mret (Some (ThinkingEvent (or (or content text) (VString ""))))
  else if is_str ty "tool_use" then
    name ← get data "name"; input ← get data "input";
    mret (Some (ToolUseEvent (or name (VString "")) (or input (VObject []))))
  else if is_str ty "tool_result" then
    content ← get data "content"; success ← get data "success";
    mret (Some (ToolResultEvent (or content (VString "")) success))
  else if is_str ty "message" || is_str ty "text" then
    content ← get data "content"; text ← get data "text";
    mret (Some (MessageEvent (or (or content text) (VString ""))))
  else if is_str ty "error" then
    error ← get data "error"; message ← get data "message";
    stack ← get data "stack";
    mret (Some (ErrorEvent (or (or error message) (VString "")) stack))
  else if is_str ty "complete" || is_str ty "completed" then
    summary ← get data "summary";
    mret (Some (CompletedEvent summary))
  else mret None.

Section WithRuntime.
Variable JSON_parse : string -> option value.
Variable stripAnsi : string -> string.

(** The body of the loop over the complete lines: what one line adds to
    [events]. A line that does not parse, or on which the mapping
    throws, is caught and skipped. *)
Definition decodeLine (line : string) : list ClaudeEvent :=
  if String.eqb (trim line) "" then []
  else match JSON_parse line with
       | None => []
       | Some data =>
           match jsonToEvent data with
           | Normal (Some event) => [event]
           | Normal None | Throw _ => []
           end
       end.

(** [parseJsonStream(chunk)]: the events and the parser afterwards. *)
Definition parseJsonStream (p : t) (chunk : string) : list ClaudeEvent * t :=
  let jsonBuffer1 := (jsonBuffer p +:+ chunk) in
  let '(lines, last) := pop (split_lines jsonBuffer1) in
  let jsonBuffer2 := match last with
                     | Some l => if negb (String.eqb l "") then l else ""
                     | None => ""
                     end in
  (flat_map decodeLine lines,
   {| buffer := buffer p; jsonBuffer := jsonBuffer2; isJsonMode := isJsonMode p |}).

(** The text between the first [open] and the first [close] after it,
    and what follows [close]: the match of
    [/open([\s\S]*?)close/] and the buffer sliced after it. *)
Definition match_between (open close buf : string) : option (string * string) :=
  match find_sub open buf with
  | None => None
  | Some (_, after_open) => find_sub close after_open
  end.

Definition has_line_terminator (s : string) : bool :=
  existsb (fun c => Ascii.eqb c LF || Ascii.eqb c CR) (list_ascii_of_string s).

(** [<parameters>([\s\S]*?)</parameters>[\s\S]*?</tool_use>] after any
    text: the parameters and what follows the match. *)
Definition match_parameters (s : string) : option (string * string) :=
  match match_between "<parameters>" "</parameters>" s with
  | None => None
  | Some (params, after_params) =>
      match find_sub "</tool_use>" after_params with
      | None => None
      | Some (_, rest) => Some (params, rest)
      end
  end.

(** [[\s\S]*?<name>(.*?)</name>] and the remainder of the pattern: the
    first [<name>] whose text up to [</name>] stays on one line. *)
Fixpoint match_name (fuel : nat) (s : string) : option (string * string * string) :=
  match fuel with
  | O => None
  | S fuel' =>
      match find_sub "<name>" s with
      | None => None
      | Some (_, after_open) =>
          match find_sub "</name>" after_open with
          | None => None
          | Some (name, after_name) =>
              if has_line_terminator name then match_name fuel' after_open
              else match match_parameters after_name with
                   | None => None
                   | Some (params, rest) => Some (name, params, rest)
                   end
          end
      end
  end.

(** The match of the [<tool_use>] pattern: name, parameters and the
    buffer sliced after the match. *)
Definition match_tool_use (buf : string) : option (string * string * string) :=
  match find_sub "<tool_use>" buf with
  | None => None
  | Some (_, after_open) => match_name (String.length after_open) after_open
  end.

(** [/^Assistant: (.*?)(?=\n<|$)/s]: the message runs to the first line
    feed that a [<] follows, or to the end. *)
Definition match_message (buf : string) : option (string * string) :=
  match strip_prefix "Assistant: " buf with
  | None => None
  | Some r =>
      match find_sub (String LF "<") r with
      | Some (content, after) => Some (content, String LF (String "<" after))
      | None => Some (r, "")
      end
  end.

(** [parseParams(paramsXml)]. *)
Definition parseParams (paramsXml : string) : value :=
  match JSON_parse paramsXml with
  | Some v => v
  | None => VObject [("raw", VString (trim paramsXml))]
  end.

(** [extractNextEvent()] on the buffer: the event and the buffer left,
    or [None] for [null] (the buffer is then unchanged). *)
Definition extractNextEvent (buf : string) : option (ClaudeEvent * string) :=
  match match_between "<thinking>" "</thinking>" buf with
  | Some (content, rest) => Some (ThinkingEvent (VString (trim content)), rest)
  | None =>
  match match_tool_use buf with
  | Some (name, params, rest) =>
      Some (ToolUseEvent (VString name) (parseParams params), rest)
  | None =>
  match match_between "<tool_result>" "</tool_result>" buf with
  | Some (content, rest) =>
      Some (ToolResultEvent (VString (trim content)) VUndefined, rest)
  | None =>
  match match_message buf with
  | Some (content, rest) => Some (MessageEvent (VString (trim content)), rest)
  | None => None
  end end end end.

(** The [while (true)] loop of [parseTextOutput], at most [fuel] turns. *)
Fixpoint extractLoop (fuel : nat) (buf : string) : list ClaudeEvent * string :=
  match fuel with
  | O => ([], buf)
  | S fuel' =>
      match extractNextEvent buf with
      | None => ([], buf)
      | Some (event, buf') =>
          let '(events, final) := extractLoop fuel' buf' in
          (event :: events, final)
      end
  end.

(** [parseTextOutput(rawOutput)]. Every turn of the loop shortens the
    buffer ([extractNextEvent_shrinks] below), so that as many turns as
    the buffer has characters reach the [break]. *)
Definition parseTextOutput (p : t) (rawOutput : string) : list ClaudeEvent * t :=
  let clean := stripAnsi rawOutput in
  let buffer1 := (buffer p +:+ clean) in
  let '(events, buffer2) := extractLoop (String.length buffer1) buffer1 in
  (events,
   {| buffer := buffer2; jsonBuffer := jsonBuffer p; isJsonMode := isJsonMode p |}).

(** [parse(rawOutput)]. *)
Definition parse (p : t) (rawOutput : string) : list ClaudeEvent * t :=
  let '(events, p') :=
    if isJsonMode p then parseJsonStream p rawOutput
    else parseTextOutput p rawOutput in
  (events ++ [RawOutputEvent (VString rawOutput) true], p').

(** Feeding the chunks of a stream one after the other. *)
Fixpoint feed_all (step : t -> string -> list ClaudeEvent * t)
    (p : t) (chunks : list string) : list ClaudeEvent * t :=
  match chunks with
  | [] => ([], p)
  | chunk :: rest =>
      let '(events, p') := step p chunk in
      let '(events', p'') := feed_all step p' rest in
      (events ++ events', p'')
  end.

End WithRuntime.
End OutputParser.

(** ** The process supervisor ([ClaudeManager])

    The object's fields are a record; every method returns the object
    afterwards and the effects it had on the outside, in order. Logging and
    the echo of the output on the terminal are left out. The clock
    ([Date.now()]) is an argument of the methods that read it. *)

Module ClaudeManager.
Import JsString.

Record ClaudeManagerConfig : Type := {
  claudePath : string;
  workingDirectory : string;
  args : option (list string)
}.

(** The handle that [spawn] returns, with the two buffers that the
    handlers registered on it close over. [stdin] tells whether the
    handle has an input stream. *)
Record ChildProcess : Type := {
  stdin : bool;
  stdoutBuffer : string;
  stderrBuffer : string
}.

Record t : Type := mk {
  config : ClaudeManagerConfig;
  currentProcess : option ChildProcess;
  sessionId : value;              (* [VNull] for [null] *)
  isProcessing : bool;
  isStarted : bool;
  startTime : Z;
  lastActivity : Z
}.

Inductive Effect : Type :=
| Spawn (command : string) (argv : list value) (cwd : string)
| StdinWrite (message : string)
| StdinEnd
| Kill (signal : string)
| Emit (name : string) (event : ClaudeEvent).

(** What the child process does while the manager runs. *)
Inductive ProcessEvent : Type :=
| StdoutData (chunk : string)
| StderrData (chunk : string)
| Exit (code : option Z) (signal : option string)
| ProcessError (message : string) (stack : value).

(** [new ClaudeManager(config)]. *)
Definition create (cfg : ClaudeManagerConfig) : t :=
  {| config := cfg; currentProcess := None; sessionId := VNull;
     isProcessing := false; isStarted := false;
     startTime := 0; lastActivity := 0 |}.

Definition set_sessionId (v : value) (m : t) : t :=
  {| config := config m; currentProcess := currentProcess m; sessionId := v;
     isProcessing := isProcessing m; isStarted := isStarted m;
     startTime := startTime m; lastActivity := lastActivity m |}.

Definition set_isProcessing (b : bool) (m : t) : t :=
  {| config := config m; currentProcess := currentProcess m;
     sessionId := sessionId m; isProcessing := b; isStarted := isStarted m;
     startTime := startTime m; lastActivity := lastActivity m |}.

Definition set_currentProcess (p : option ChildProcess) (m : t) : t :=
  {| config := config m; currentProcess := p; sessionId := sessionId m;
     isProcessing := isProcessing m; isStarted := isStarted m;
     startTime := startTime m; lastActivity := lastActivity m |}.

(** [start()]. *)
Definition start (now : Z) (m : t) : t * list Effect :=
  ({| config := config m; currentProcess := currentProcess m;
      sessionId := sessionId m; isProcessing := isProcessing m;
      isStarted := true; startTime := now; lastActivity := now |},
   [Emit "status"
      (StatusEvent "started" (VString "Claude CLI manager ready (print mode)"))]).

Definition isAlive (m : t) : bool := isStarted m.
Definition isBusy (m : t) : bool := isProcessing m.
Definition getSessionId (m : t) : value := sessionId m.

(** The flags of print mode, before the configured and the continuation
    arguments. *)
Definition printModeArgs : list string :=
  ["--print"; "--output-format"; "stream-json"; "--verbose";
   "--permission-mode"; "bypassPermissions"].

(** The array [args] that [sendMessage] hands to [spawn]. *)
Definition buildArgs (m : t) : list value :=
  map VString (printModeArgs ++ default [] (args (config m)))
  ++ (if truthy (sessionId m) then [VString "--continue"; sessionId m] else []).

Definition busyError : string := "Claude is currently processing another message".

Section WithSpawn.
(** [spawn(command, args, {cwd})] of [child_process]: whether the handle
    it returns has an input stream. *)
Variable spawn_stdin : string -> list value -> string -> bool.

(** [sendMessage(message)]. *)
Definition sendMessage (now : Z) (message : string) (m : t)
    : completion unit * t * list Effect :=
  if isProcessing m then (Throw busyError, m, [])
  else
    let argv := buildArgs m in
    let command := claudePath (config m) in
    let cwd := workingDirectory (config m) in
    let child := {| stdin := spawn_stdin command argv cwd;
                    stdoutBuffer := ""; stderrBuffer := "" |} in
    (Normal tt,
     {| config := config m; currentProcess := Some child;
        sessionId := sessionId m; isProcessing := true;
        isStarted := isStarted m; startTime := startTime m;
        lastActivity := now |},
     Spawn command argv cwd
       :: (if stdin child then [StdinWrite message; StdinEnd] else [])).
End WithSpawn.

(** [contentBlockToEvent(block)]. *)
Definition contentBlockToEvent (block : value) : completion (option ClaudeEvent) :=
  ty ← get block "type";
  if is_str ty "thinking" then
    thinking ← get block "thinking";
    mret (Some (ThinkingEvent (or thinking (VString ""))))
  else if is_str ty "text" then
    text ← get block "text";
    mret (Some (MessageEvent (or text (VString ""))))
  else if is_str ty "tool_use" then
    name ← get block "name"; input ← get block "input";
    mret (Some (ToolUseEvent (or name (VString "")) (or input (VObject []))))
  else mret None.

(** The block of a user message: a [tool_result] event or nothing. *)
Definition toolResultBlockToEvent (block : value) : completion (option ClaudeEvent) :=
  ty ← get block "type";
  if is_str ty "tool_result" then
    content ← get block "content";
    mret (Some (ToolResultEvent (or content (VString "")) VUndefined))
  else mret None.

(** [jsonToEvent(data)]. *)
Definition jsonToEvent (data : value) : completion (option ClaudeEvent) :=
  ty ← get data "type";
  content ← get data "content";
  text ← get data "text";
  thinking ← get data "thinking";
  tool ← get data "tool";
  result ← get data "result";
  if is_str ty "thinking" || truthy thinking then
    mret (Some (ThinkingEvent (or (or content thinking) (VString ""))))
  else if is_str ty "tool_use" || truthy tool then
    name ← get data "name"; tool_name ← get_opt tool "name";
    input ← get data "input"; tool_input ← get_opt tool "input";
    mret (Some (ToolUseEvent (or (or name tool_name) (VString ""))
                             (or (or input tool_input) (VObject []))))
  else if is_str ty "tool_result" || truthy result then
    mret (Some (ToolResultEvent (or (or content result) (VString "")) VUndefined))
  else if is_str ty "message" || is_str ty "content" || truthy text then
    mret (Some (MessageEvent (or (or content text) (VString ""))))
  else if is_str ty "error" then
    error ← get data "error"; message ← get data "message";
    mret (Some (ErrorEvent (or (or error message) (VString "")) VUndefined))
  else if truthy content || truthy text then
    mret (Some (RawOutputEvent (or (or content text) (VString "")) false))
  else mret None.

(** The fields by whose presence, whatever the [type], [jsonToEvent]
    maps a record. *)
Definition fieldMarked (data : value) : bool :=
  truthy (field data "thinking") || truthy (field data "tool")
  || truthy (field data "result") || truthy (field data "text")
  || truthy (field data "content").

(** The events of one block of an assistant message. *)
Definition blockEvents (block : value) : list ClaudeEvent :=
  match contentBlockToEvent block with
  | Normal (Some event) => [event]
  | Normal None | Throw _ => []
  end.

(** A [for ... of] loop that emits what [f] gives for each block; when
    [f] throws the loop is left, and what it emitted stays emitted. *)
Fixpoint emitBlocks (f : value -> completion (option ClaudeEvent))
    (blocks : list value) : list ClaudeEvent :=
  match blocks with
  | [] => []
  | block :: rest =>
      match f block with
      | Normal (Some event) => event :: emitBlocks f rest
      | Normal None => emitBlocks f rest
      | Throw _ => []
      end
  end.

(** The session id that a record carries: [data.session_id ||
    data.sessionId]. *)
Definition recordSessionId (data : value) : completion value :=
  a ← get data "session_id"; b ← get data "sessionId"; mret (or a b).

(** Whether the record carries a session id: the test of
    [if (data.session_id || data.sessionId)]. *)
Definition carriesSessionId (data : value) : bool :=
  match recordSessionId data with
  | Normal v => truthy v
  | Throw _ => false
  end.

(** The session id after the record was scanned for one. *)
Definition captureSessionId (current : value) (data : value) : value :=
  match recordSessionId data with
  | Normal newSessionId =>
      if truthy newSessionId then
        if negb (strict_eq newSessionId current) then newSessionId else current
      else current
  | Throw _ => current
  end.

(** The events that the body of [try] emits for a parsed record. *)
Definition recordEvents (data : value) : list ClaudeEvent :=
  match (ty ← get data "type"; message ← get data "message";
         content ← get_opt message "content"; mret (ty, content)) with
  | Throw _ => []
  | Normal (ty, content) =>
      if is_str ty "assistant" && truthy content then
        match iterate content with
        | Normal blocks => emitBlocks contentBlockToEvent blocks
        | Throw _ => []
        end
      else if is_str ty "user" && truthy content then
        match iterate content with
        | Normal blocks => emitBlocks toolResultBlockToEvent blocks
        | Throw _ => []
        end
      else
        match jsonToEvent data with
        | Normal (Some event) => [event]
        | Normal None | Throw _ => []
        end
  end.

Section WithRuntime.
Variable JSON_parse : string -> option value.

(** The record of a line: nothing for a blank line, which the loop
    skips, and for a line on which [JSON.parse] throws. *)
Definition decodeLine (line : string) : option value :=
  if String.eqb (trim line) "" then None else JSON_parse line.

(** One turn of the loop of [parseJsonStream] over the lines of a
    chunk: the session id afterwards and the events emitted. *)
Definition processLine (current : value) (line : string) : value * list ClaudeEvent :=
  match decodeLine line with
  | None => (current, [])
  | Some data => (captureSessionId current data, recordEvents data)
  end.

Fixpoint processLines (current : value) (lines : list string)
    : value * list ClaudeEvent :=
  match lines with
  | [] => (current, [])
  | line :: rest =>
      let '(current1, events1) := processLine current line in
      let '(current2, events2) := processLines current1 rest in
      (current2, events1 ++ events2)
  end.

(** [parseJsonStream(chunk)]. *)
Definition parseJsonStream (chunk : string) (m : t) : t * list ClaudeEvent :=
  let '(sid, events) := processLines (sessionId m) (split_lines chunk) in
  (set_sessionId sid m, events).

Definition appendStdout (chunk : string) (p : ChildProcess) : ChildProcess :=
  {| stdin := stdin p; stdoutBuffer := stdoutBuffer p +:+ chunk;
     stderrBuffer := stderrBuffer p |}.

Definition appendStderr (chunk : string) (p : ChildProcess) : ChildProcess :=
  {| stdin := stdin p; stdoutBuffer := stdoutBuffer p;
     stderrBuffer := stderrBuffer p +:+ chunk |}.

(** The text of [`${code}`]: [null], or the decimal numeral of the exit
    code, which is an integer. *)
Definition showCode (code : option Z) : string :=
  match code with
  | None => "null"
  | Some n => NilZero.string_of_int (Z.to_int n)
  end.

(** The handlers that [sendMessage] registers on the child process. *)
Definition handle (ev : ProcessEvent) (m : t) : t * list Effect :=
  match ev with
  | StdoutData chunk =>
      let m1 := set_currentProcess (appendStdout chunk <$> currentProcess m) m in
      let '(m2, events) := parseJsonStream chunk m1 in
      (m2, map (Emit "event") events)
  | StderrData chunk =>
      (set_currentProcess (appendStderr chunk <$> currentProcess m) m, [])
  | Exit code signal =>
      let m1 := set_isProcessing false m in
      match code with
      | Some 0%Z => (m1, [Emit "event" (CompletedEvent VUndefined)])
      | _ =>
          (m1, [Emit "event"
                  (ErrorEvent (VString ("Claude exited with code " +:+ showCode code))
                              VUndefined)])
      end
  | ProcessError message stack =>
      (set_isProcessing false m,
       [Emit "event" (ErrorEvent (VString message) stack)])
  end.

(** The handlers run on the events of the child in their order. *)
Fixpoint handleAll (evs : list ProcessEvent) (m : t) : t * list Effect :=
  match evs with
  | [] => (m, [])
  | ev :: rest =>
      let '(m1, effs1) := handle ev m in
      let '(m2, effs2) := handleAll rest m1 in
      (m2, effs1 ++ effs2)
  end.

(** The events that the listeners of the manager receive. *)
Definition emittedEvents (effs : list Effect) : list ClaudeEvent :=
  omap (fun eff => match eff with
                   | Emit _ event => Some event
                   | _ => None
                   end) effs.

Definition is_completed (event : ClaudeEvent) : bool :=
  match event with
  | CompletedEvent _ => true
  | _ => false
  end.

(** The events of a child that are output on one of its streams. *)
Definition isOutput (ev : ProcessEvent) : bool :=
  match ev with
  | StdoutData _ | StderrData _ => true
  | Exit _ _ | ProcessError _ _ => false
  end.

(** The records that the manager decodes from the output of the child,
    in their order. *)
Fixpoint decodedRecords (evs : list ProcessEvent) : list value :=
  match evs with
  | [] => []
  | StdoutData chunk :: rest => omap decodeLine (split_lines chunk) ++ decodedRecords rest
  | _ :: rest => decodedRecords rest
  end.

(** How the wait in [stop()] ends: the child exits within the five
    seconds, or the timer fires. In both cases the child may have been
    heard from before. *)
Inductive StopWait : Type :=
| Exited (before : list ProcessEvent) (code : option Z) (signal : option string)
| TimedOut (before : list ProcessEvent).

(** [stop()], up to the resolution of its promise. *)
Definition stop (wait : StopWait) (m : t) : t * list Effect :=
  match currentProcess m with
  | None => (m, [])
  | Some _ =>
      match wait with
      | Exited before code signal =>
          let '(m1, effs1) := handleAll before m in
          let '(m2, effs2) := handle (Exit code signal) m1 in
          (set_isProcessing false m2, Kill "SIGTERM" :: effs1 ++ effs2)
      | TimedOut before =>
          let '(m1, effs1) := handleAll before m in
          (set_isProcessing false m1,
           Kill "SIGTERM" :: effs1
             ++ (match currentProcess m1 with
                 | Some _ => [Kill "SIGKILL"]
                 | None => []
                 end))
      end
  end.

(** [restart()]. *)
Definition restart (wait : StopWait) (m : t) : t * list Effect :=
  let '(m1, effs) := stop wait m in
  (set_sessionId VNull m1, effs).

End WithRuntime.
End ClaudeManager.

(** ** The event broadcaster ([SSEManager])

    A subscriber's sink is an [express] response; the class uses three of
    its methods. [write] and [end] throw on a connection that is gone. *)

Class ResponseLike (Response : Type) : Type := {
  setHeader : Response -> string -> string -> Response;
  write : Response -> string -> completion Response;
  end_ : Response -> completion Response
}.

Module SSEManager.
Import JsString.

(** [try { body } catch (error) { handler }]. *)
Definition try_catch {A : Type} (body : completion A)
    (handler : string -> completion A) : completion A :=
  match body with
  | Normal a => Normal a
  | Throw e => handler e
  end.

Section WithResponse.
Context {Response : Type} `{ResponseLike Response}.
Variable JSON_stringify : ClaudeEvent -> string.

(** The field [clients], a [Map] from client ids to responses, is a
    [gmap string Response]: the order of registration does not matter to
    any of the methods modelled here; [getClientIds], which lists the ids
    in that order, is left out. *)

(** [sendEvent(res, event)]: the response after the two writes. *)
Definition sendEvent (res : Response) (event : ClaudeEvent) : completion Response :=
  let eventType := if String.eqb (event_type event) "" then "message"
                   else event_type event in
  let data := JSON_stringify event in
  res1 ← write res ("event: " +:+ eventType +:+ String LF "");
  write res1 ("data: " +:+ data +:+ String LF (String LF "")).

(** What a push of [event] leaves of a subscriber: its response after the
    two writes, or nothing when a write throws. *)
Definition delivered (event : ClaudeEvent) (res : Response) : option Response :=
  match sendEvent res event with
  | Normal res' => Some res'
  | Throw _ => None
  end.

(** What [removeClient] leaves of the response that it takes off the
    map: the response ended, or as it was when [end] throws. *)
Definition closed (res : Response) : Response :=
  match end_ res with
  | Normal res' => res'
  | Throw _ => res
  end.

(** [removeClient(clientId)]. *)
Definition removeClient (clientId : string) (clients : gmap string Response)
    : completion (gmap string Response) :=
  match clients !! clientId with
  | Some res =>
      _ ← try_catch (end_ res) (fun _ => mret res);
      mret (delete clientId clients)
  | None => mret clients
  end.

(** The callback of [forEach] in [broadcast], on the entry of
    [clientId]; an entry that has been deleted is not visited. *)
Definition broadcastTo (event : ClaudeEvent) (clientId : string)
    (clients : gmap string Response) : completion (gmap string Response) :=
  match clients !! clientId with
  | None => mret clients
  | Some res =>
      try_catch
        (res' ← sendEvent res event; mret (<[clientId := res']> clients))
        (fun _ => removeClient clientId clients)
  end.

(** A loop over client ids that threads the map through. *)
Fixpoint forEach (f : string -> gmap string Response -> completion (gmap string Response))
    (ids : list string) (clients : gmap string Response)
    : completion (gmap string Response) :=
  match ids with
  | [] => mret clients
  | clientId :: rest => clients' ← f clientId clients; forEach f rest clients'
  end.

(** [broadcast(event)]. *)
Definition broadcast (event : ClaudeEvent) (clients : gmap string Response)
    : completion (gmap string Response) :=
  forEach (broadcastTo event) (map_to_list clients).*1 clients.

(** [sendToClient(clientId, event)]. *)
Definition sendToClient (clientId : string) (event : ClaudeEvent)
    (clients : gmap string Response) : completion (gmap string Response) :=
  broadcastTo event clientId clients.

(** [addClient(clientId, res)]; the [close] listener it registers calls
    [removeClient] when the connection closes. *)
Definition addClient (clientId : string) (res : Response)
    (clients : gmap string Response) : completion (gmap string Response) :=
  let res1 := setHeader res "Content-Type" "text/event-stream" in
  let res2 := setHeader res1 "Cache-Control" "no-cache" in
  let res3 := setHeader res2 "Connection" "keep-alive" in
  let res4 := setHeader res3 "X-Accel-Buffering" "no" in
  res5 ← sendEvent res4 (ConnectedEvent clientId);
  mret (<[clientId := res5]> clients).

(** [closeAll()]. *)
Definition closeAll (clients : gmap string Response) : completion (gmap string Response) :=
  mret (∅ : gmap string Response).

Definition getClientCount (clients : gmap string Response) : nat := size clients.

End WithResponse.
End SSEManager.



(** ** [JSON.parse]

    A recursive-descent reader of the JSON grammar, for running the classes
    on concrete lines; a property that is stated for every line takes
    [JSON.parse] as a parameter instead. It gives [None] where [JSON.parse]
    throws, and the value that [JSON.parse] gives on the texts whose
    strings stay within the code units below 256 and whose numbers a
    double holds exactly. Outside of these texts it differs: a [\uXXXX]
    escape above 255 is outside the alphabet of the model and is refused,
    and a number is kept as it is written, not rounded to a double. *)

Module Json.

Definition quote : ascii := Ascii.ascii_of_nat 34.
Definition backslash : ascii := Ascii.ascii_of_nat 92.

Definition is_ws (c : ascii) : bool :=
  let n := Ascii.nat_of_ascii c in
  (n =? 32)%nat || (n =? 9)%nat || (n =? 10)%nat || (n =? 13)%nat.

Fixpoint skip_ws (s : string) : string :=
  match s with
  | String c r => if is_ws c then skip_ws r else s
  | EmptyString => EmptyString
  end.

Definition digit_of (c : ascii) : option Z :=
  let n := Ascii.nat_of_ascii c in
  if (48 <=? n)%nat && (n <=? 57)%nat then Some (Z.of_nat (n - 48)) else None.

Definition is_digit (c : ascii) : bool :=
  match digit_of c with
  | Some _ => true
  | None => false
  end.

Definition hex_of (c : ascii) : option nat :=
  let n := Ascii.nat_of_ascii c in
  if (48 <=? n)%nat && (n <=? 57)%nat then Some (n - 48)%nat
  else if (97 <=? n)%nat && (n <=? 102)%nat then Some (n - 87)%nat
  else if (65 <=? n)%nat && (n <=? 70)%nat then Some (n - 55)%nat
  else None.

(** The four hexadecimal digits of a [\u] escape as a code unit. *)
Definition hex4 (a b c d : ascii) : option ascii :=
  match hex_of a, hex_of b, hex_of c, hex_of d with
  | Some x, Some y, Some z, Some w =>
      let n := (((x * 16 + y) * 16 + z) * 16 + w)%nat in
      if (n <? 256)%nat then Some (Ascii.ascii_of_nat n) else None
  | _, _, _, _ => None
  end.

(** The characters of a string literal after its opening quote, and what
    follows the closing quote. *)
Fixpoint parse_chars (s : string) : option (string * string) :=
  match s with
  | EmptyString => None
  | String c r =>
      if Ascii.eqb c quote then Some (EmptyString, r)
      else if Ascii.eqb c backslash then
        match r with
        | String e r1 =>
            let plain (x : ascii) :=
              match parse_chars r1 with
              | Some (body, rest) => Some (String x body, rest)
              | None => None
              end in
            if Ascii.eqb e quote then plain quote
            else if Ascii.eqb e backslash then plain backslash
            else if Ascii.eqb e "/" then plain "/"%char
            else if Ascii.eqb e "b" then plain (Ascii.ascii_of_nat 8)
            else if Ascii.eqb e "f" then plain (Ascii.ascii_of_nat 12)
            else if Ascii.eqb e "n" then plain (Ascii.ascii_of_nat 10)
            else if Ascii.eqb e "r" then plain (Ascii.ascii_of_nat 13)
            else if Ascii.eqb e "t" then plain (Ascii.ascii_of_nat 9)
            else if Ascii.eqb e "u" then
              match r1 with
              | String h1 (String h2 (String h3 (String h4 r2))) =>
                  match hex4 h1 h2 h3 h4, parse_chars r2 with
                  | Some x, Some (body, rest) => Some (String x body, rest)
                  | _, _ => None
                  end
              | _ => None
              end
            else None
        | EmptyString => None
        end
      else if (Ascii.nat_of_ascii c <? 32)%nat then None
      else match parse_chars r with
           | Some (body, rest) => Some (String c body, rest)
           | None => None
           end
  end.

(** A run of decimal digits: their value, their number, and the rest. *)
Fixpoint parse_digits (acc : Z) (count : nat) (s : string) : Z * nat * string :=
  match s with
  | String c r =>
      match digit_of c with
      | Some d => parse_digits (acc * 10 + d) (S count) r
      | None => (acc, count, s)
      end
  | EmptyString => (acc, count, s)
  end.

(** [-? int frac? exp?]; an integer part does not start with a zero that
    another digit follows. *)
Definition parse_number (s : string) : option (value * string) :=
  let '(negative, s1) := match s with
                         | String "-" r => (true, r)
                         | _ => (false, s)
                         end in
  let '(int_part, int_count, s2) := parse_digits 0 0 s1 in
  let leading_zero := match s1 with
                      | String "0" _ => (1 <? int_count)%nat
                      | _ => false
                      end in
  if (int_count =? 0)%nat || leading_zero then None
  else
    let frac := match s2 with
                | String "." r =>
                    let '(m, count, s3) := parse_digits int_part 0 r in
                    if (count =? 0)%nat then None else Some (m, count, s3)
                | _ => Some (int_part, 0%nat, s2)
                end in
    match frac with
    | None => None
    | Some (mantissa, frac_count, s3) =>
        let expo := match s3 with
                    | String e r =>
                        if Ascii.eqb e "e" || Ascii.eqb e "E" then
                          let '(minus, r1) := match r with
                                              | String "-" r' => (true, r')
                                              | String "+" r' => (false, r')
                                              | _ => (false, r)
                                              end in
                          let '(x, count, s4) := parse_digits 0 0 r1 in
                          if (count =? 0)%nat then None
                          else Some ((if minus then - x else x)%Z, s4)
                        else Some (0%Z, s3)
                    | EmptyString => Some (0%Z, s3)
                    end in
        match expo with
        | None => None
        | Some (x, s4) =>
            let m := (if negative then - mantissa else mantissa)%Z in
            let q := (inject_Z m * Qpower (inject_Z 10) (x - Z.of_nat frac_count))%Q in
            Some (VNumber (Q2Qc q), s4)
        end
    end.

Fixpoint parse_value (fuel : nat) (s : string) {struct fuel} : option (value * string) :=
  match fuel with
  | O => None
  | S fuel' =>
      match s with
      | EmptyString => None
      | String c r =>
          if Ascii.eqb c "{" then
            match skip_ws r with
            | String "}" r' => Some (VObject [], r')
            | r' => parse_members fuel' [] r'
            end
          else if Ascii.eqb c "[" then
            match skip_ws r with
            | String "]" r' => Some (VArray [], r')
            | r' => parse_elements fuel' [] r'
            end
          else if Ascii.eqb c quote then
            match parse_chars r with
            | Some (body, rest) => Some (VString body, rest)
            | None => None
            end
          else if Ascii.eqb c "-" || is_digit c then parse_number s
          else match JsString.strip_prefix "true" s with
               | Some rest => Some (VBool true, rest)
               | None =>
               match JsString.strip_prefix "false" s with
               | Some rest => Some (VBool false, rest)
               | None =>
               match JsString.strip_prefix "null" s with
               | Some rest => Some (VNull, rest)
               | None => None
               end end end
      end
  end
with parse_elements (fuel : nat) (acc : list value) (s : string) {struct fuel}
    : option (value * string) :=
  match fuel with
  | O => None
  | S fuel' =>
      match parse_value fuel' s with
      | None => None
      | Some (v, r) =>
          match skip_ws r with
          | String "," r' => parse_elements fuel' (v :: acc) (skip_ws r')
          | String "]" r' => Some (VArray (rev (v :: acc)), r')
          | _ => None
          end
      end
  end
with parse_members (fuel : nat) (acc : list (string * value)) (s : string) {struct fuel}
    : option (value * string) :=
  match fuel with
  | O => None
  | S fuel' =>
      match s with
      | String c r =>
          if Ascii.eqb c quote then
            match parse_chars r with
            | None => None
            | Some (key, r1) =>
                match skip_ws r1 with
                | String ":" r2 =>
                    match parse_value fuel' (skip_ws r2) with
                    | None => None
                    | Some (v, r3) =>
                        match skip_ws r3 with
                        | String "," r4 =>
                            parse_members fuel' ((key, v) :: acc) (skip_ws r4)
                        | String "}" r4 => Some (VObject (rev ((key, v) :: acc)), r4)
                        | _ => None
                        end
                    end
                | _ => None
                end
            end
          else None
      | EmptyString => None
      end
  end.

(** [JSON.parse(text)]: one value, with white space around it. *)
Definition parse (text : string) : option value :=
  match parse_value (S (String.length text)) (skip_ws text) with
  | Some (v, rest) =>
      match skip_ws rest with
      | EmptyString => Some v
      | _ => None
      end
  | None => None
  end.

(** Source text of the examples: an apostrophe stands for a double quote
    and a tilde for a line feed. *)
Fixpoint text (s : string) : string :=
  match s with
  | EmptyString => EmptyString
  | String c r =>
      String (if Ascii.eqb c "'" then quote
              else if Ascii.eqb c "~" then JsString.LF else c) (text r)
  end.

End Json.


(** A recording sink for running the broadcaster: a response that keeps
    what is written to it while its connection is open, and on which
    [write] throws once the connection is gone. *)

Module Sink.

Record t : Type := mk {
  connected : bool;
  headers : list (string * string);
  received : list string;
  ended : bool
}.

#[global] Instance response_like : ResponseLike t := {
  setHeader res name v :=
    {| connected := connected res; headers := headers res ++ [(name, v)];
       received := received res; ended := ended res |};
  write res chunk :=
    if connected res then
      Normal {| connected := true; headers := headers res;
                received := received res ++ [chunk]; ended := ended res |}
    else Throw "write after end";
  end_ res :=
    Normal {| connected := connected res; headers := headers res;
              received := received res; ended := true |}
}.

Definition live : t :=
  {| connected := true; headers := []; received := []; ended := false |}.
Definition dead : t :=
  {| connected := false; headers := []; received := []; ended := false |}.

(** A serializer that writes the type of the event only. *)
Definition stringify (event : ClaudeEvent) : string :=
  Json.text ("{'type':'" +:+ event_type event +:+ "'}").


End Sink.

(** ** A proxy at work

    The configuration with which [ProxyServer.start] builds its manager, a
    [spawn] whose children have an input stream, and the manager in the
    middle of its first job. *)

Module Scenario.

Definition config : ClaudeManager.ClaudeManagerConfig :=
  {| ClaudeManager.claudePath := "claude";
     ClaudeManager.workingDirectory := "/workspace";
     ClaudeManager.args := None |}.

Definition spawn_stdin (command : string) (argv : list value) (cwd : string) : bool :=
  true.

Definition started : ClaudeManager.t :=
  (ClaudeManager.start 1000 (ClaudeManager.create config)).1.

Definition busy : ClaudeManager.t :=
  (ClaudeManager.sendMessage spawn_stdin 2000 "hello" started).1.2.

End Scenario.


(** ** The life of a manager

    What can happen to a manager, one thing after the other: its methods
    are called and its child is heard from. *)

Module ManagerRun.
Import ClaudeManager.

Inductive Action : Type :=
| Start (now : Z)
| Send (now : Z) (message : string)
| Child (ev : ProcessEvent)
| Stop (wait : StopWait)
| Restart (wait : StopWait).

(** What every step keeps: a busy manager holds the handle of a child,
    and the configuration stays. *)
Definition sound (cfg : ClaudeManagerConfig) (m : t) : Prop :=
  (isProcessing m = true -> currentProcess m <> None) /\ config m = cfg.

(** What is heard from the child while [stop()] waits. *)
Definition heardBefore (wait : StopWait) : list ProcessEvent :=
  match wait with
  | Exited before _ _ => before
  | TimedOut before => before
  end.

Section WithRuntime.
Variable JSON_parse : string -> option value.
Variable spawn_stdin : string -> list value -> string -> bool.

(** The actions in the course of which no decoded record carries a
    session id. What [restart()] hears while it waits does not count: it
    clears the session id afterwards. *)
Definition quiet (a : Action) : bool :=
  match a with
  | Start _ | Send _ _ | Restart _ => true
  | Child ev =>
      forallb (fun d => negb (carriesSessionId d)) (decodedRecords JSON_parse [ev])
  | Stop wait =>
      forallb (fun d => negb (carriesSessionId d))
              (decodedRecords JSON_parse (heardBefore wait))
  end.

Definition step (a : Action) (m : t) : t * list Effect :=
  match a with
  | Start now => start now m
  | Send now message =>
      let '(_, m', effs) := sendMessage spawn_stdin now message m in (m', effs)
  | Child ev => handle JSON_parse ev m
  | Stop wait => stop JSON_parse wait m
  | Restart wait => restart JSON_parse wait m
  end.

Fixpoint run (actions : list Action) (m : t) : t * list Effect :=
  match actions with
  | [] => (m, [])
  | a :: rest =>
      let '(m1, effs1) := step a m in
      let '(m2, effs2) := run rest m1 in
      (m2, effs1 ++ effs2)
  end.

End WithRuntime.
End ManagerRun.

(** ** The HTTP front ([ProxyServer])

    The server owns a manager, once started, and the broadcaster; the
    listener it puts on the manager hands every emitted event to
    [broadcast]. A request handler is modelled from its first statement to
    its reply, which is its outcome; [Throw] stands for an exception that
    nothing catches, with which the promise of the handler is rejected.
    Requests that arrive while [handleReset] waits for [restart()] are left
    out, and so is the listening socket. *)

Module ProxyServer.
Import ClaudeManager SSEManager.

Record t (Response : Type) : Type := mk {
  claudeManager : option ClaudeManager.t;
  sseManager : gmap string Response;
  startTime : Z
}.
Arguments mk {Response} _ _ _.
Arguments claudeManager {Response} _.
Arguments sseManager {Response} _.
Arguments startTime {Response} _.

(** How [handleChat] replies. [InternalError] is the [catch] around the
    handler, entered with this error: it replies 500 unless the headers
    are already sent. Whether sending a reply with [res.json] goes through
    is not modelled for this handler. A rejected request is answered on
    its event stream: [stream] is the
    response of the subscriber as [removeClient] closed it, after the push
    of the error event; it is nothing when that push failed, which had
    taken the subscriber off the map already. *)
Inductive ChatOutcome (Response : Type) : Type :=
| BadRequest                      (* 400, the message is required *)
| Unavailable                     (* 503, the manager is not running *)
| InternalError (err : string)
| Streaming                       (* the event stream is open, the job runs *)
| Rejected (err : string) (stream : option Response).
Arguments BadRequest {Response}.
Arguments Unavailable {Response}.
Arguments InternalError {Response} err.
Arguments Streaming {Response}.
Arguments Rejected {Response} err stream.

(** The replies that [handleReset] sends with [res.json]. *)
Inductive ResetReply : Type :=
| ReplyNotInitialized             (* 400 *)
| ReplyReset                      (* the [ResetResponse] *)
| ReplyFailed (message : string). (* 500 *)

(** How [handleReset] ends when it does not throw: the reply that went
    out. *)
Inductive ResetOutcome : Type :=
| NotInitialized
| ResetDone                       (* the reply was sent and the reset broadcast *)
| ResetFailed (err : string).

(** [new ProxyServer(config)]. *)
Definition create {Response : Type} : t Response :=
  {| claudeManager := None; sseManager := ∅; startTime := 0 |}.

(** The [message] of a request body as [handleChat] reads it, up to the
    log line that calls [message?.substring]: nothing for [undefined] and
    [null], the text of a string, and a [TypeError] for any other value
    and for a body that is [null] or [undefined]. *)
Definition bodyMessage (body : value) : completion (option string) :=
  message ← get body "message";
  match message with
  | VUndefined | VNull => mret None
  | VString text => mret (Some text)
  | _ => Throw "TypeError: message?.substring is not a function"
  end.

Section WithResponse.
Context {Response : Type} `{ResponseLike Response}.
Variable JSON_stringify : ClaudeEvent -> string.
Variable JSON_parse : string -> option value.
Variable spawn_stdin : string -> list value -> string -> bool.

(** [start()], up to the call of [listen]: the manager is built from the
    path and the directory of the configuration and started; its [status]
    event has no listener. *)
Definition start (now now' : Z) (claudePath workingDirectory : string)
    (server : t Response) : t Response :=
  {| claudeManager :=
       Some (ClaudeManager.start now'
               (ClaudeManager.create
                  {| ClaudeManager.claudePath := claudePath;
                     ClaudeManager.workingDirectory := workingDirectory;
                     ClaudeManager.args := None |})).1;
     sseManager := sseManager server;
     startTime := now |}.

(** The listener on [event]: what the manager emits under that name is
    broadcast, in the order of emission. *)
Fixpoint forwardEffects (effs : list Effect) (clients : gmap string Response)
    : completion (gmap string Response) :=
  match effs with
  | [] => mret clients
  | Emit name event :: rest =>
      if String.eqb name "event" then
        clients' ← broadcast JSON_stringify event clients;
        forwardEffects rest clients'
      else forwardEffects rest clients
  | _ :: rest => forwardEffects rest clients
  end.

(** The child of the manager is heard from. *)
Definition onChild (ev : ProcessEvent) (server : t Response)
    : completion (t Response * list Effect) :=
  match claudeManager server with
  | None => mret (server, [])
  | Some m =>
      let '(m', effs) := handle JSON_parse ev m in
      clients' ← forwardEffects effs (sseManager server);
      mret ({| claudeManager := Some m'; sseManager := clients';
               startTime := startTime server |}, effs)
  end.

(** [handleChat(req, res)] on the body of the request, with the client id
    that [uuidv4()] gives. *)
Definition handleChat (body : value) (clientId : string) (now : Z) (res : Response)
    (server : t Response) : ChatOutcome Response * t Response * list Effect :=
  match bodyMessage body with
  | Throw err => (InternalError err, server, [])
  | Normal None => (BadRequest, server, [])
  | Normal (Some text) =>
      if String.eqb text "" then (BadRequest, server, [])
      else
        match claudeManager server with
        | None => (Unavailable, server, [])
        | Some m =>
            if negb (isAlive m) then (Unavailable, server, [])
            else
              match addClient JSON_stringify clientId res (sseManager server) with
              | Throw err => (InternalError err, server, [])
              | Normal clients1 =>
                  match sendMessage spawn_stdin now text m with
                  | (Normal _, m', effs) =>
                      (Streaming,
                       {| claudeManager := Some m'; sseManager := clients1;
                          startTime := startTime server |}, effs)
                  | (Throw err, m', effs) =>
                      match sendToClient JSON_stringify clientId
                              (ErrorEvent (VString err) VUndefined) clients1 with
                      | Throw err' =>
                          (InternalError err',
                           {| claudeManager := Some m'; sseManager := clients1;
                              startTime := startTime server |}, effs)
                      | Normal clients2 =>
                          match removeClient clientId clients2 with
                          | Normal clients3 =>
                              (Rejected err (closed <$> clients2 !! clientId),
                               {| claudeManager := Some m'; sseManager := clients3;
                                  startTime := startTime server |}, effs)
                          | Throw err' =>
                              (InternalError err',
                               {| claudeManager := Some m'; sseManager := clients2;
                                  startTime := startTime server |}, effs)
                          end
                      end
                  end
              end
        end
  end.

(** The event that [handleReset] broadcasts. *)
Definition resetStatus : ClaudeEvent :=
  StatusEvent "reset" (VString "Session has been reset").

(** The [catch] of [handleReset]: the 500 reply, with nothing around it;
    when sending it throws as well, the handler throws. *)
Definition resetFailed (respond : ResetReply -> completion unit) (err : string)
    : completion ResetOutcome :=
  _ ← respond (ReplyFailed err); mret (ResetFailed err).

(** [handleReset(req, res)]; [respond] tells of every reply whether
    sending it with [res.json] throws. The result is how the handler ends,
    with the reply that went out or with the exception that it throws, and
    the server and the effects on the outside at that point. What the
    manager emits while it is stopped reaches the subscribers before the
    reset status does. *)
Definition handleReset (wait : StopWait) (respond : ResetReply -> completion unit)
    (server : t Response) : completion ResetOutcome * t Response * list Effect :=
  match claudeManager server with
  | None =>
      match respond ReplyNotInitialized with
      | Normal _ => (Normal NotInitialized, server, [])
      | Throw err => (resetFailed respond err, server, [])
      end
  | Some m =>
      let '(m1, effs) := restart JSON_parse wait m in
      match forwardEffects effs (sseManager server) with
      | Throw err =>
          (Throw err,
           {| claudeManager := Some m1; sseManager := sseManager server;
              startTime := startTime server |}, effs)
      | Normal clients1 =>
          let server1 := {| claudeManager := Some m1; sseManager := clients1;
                            startTime := startTime server |} in
          match respond ReplyReset with
          | Throw err => (resetFailed respond err, server1, effs)
          | Normal _ =>
              match broadcast JSON_stringify resetStatus clients1 with
              | Normal clients2 =>
                  (Normal ResetDone,
                   {| claudeManager := Some m1; sseManager := clients2;
                      startTime := startTime server |}, effs)
              | Throw err => (resetFailed respond err, server1, effs)
              end
          end
      end
  end.

End WithResponse.
End ProxyServer.

(** ** Counting and sorting out *)

(** The line feeds of a text. *)
Fixpoint count_lf (s : string) : nat :=
  match s with
  | EmptyString => 0
  | String c r => if Ascii.eqb c JsString.LF then S (count_lf r) else count_lf r
  end.

Definition is_raw_output (event : ClaudeEvent) : bool :=
  match event with
  | RawOutputEvent _ _ => true
  | _ => false
  end.

(** What a sink keeps of a sequence of events pushed one after the other:
    the first push that fails ends it. *)
Definition deliveredAll {Response : Type} `{ResponseLike Response}
    (JSON_stringify : ClaudeEvent -> string) (events : list ClaudeEvent)
    (res : Response) : option Response :=
  foldl (fun acc event => acc ≫= SSEManager.delivered JSON_stringify event)
        (Some res) events.

(** A response with the four headers that [addClient] sets. *)
Definition prepared {Response : Type} `{ResponseLike Response} (res : Response)
    : Response :=
  setHeader
    (setHeader
       (setHeader (setHeader res "Content-Type" "text/event-stream")
                  "Cache-Control" "no-cache")
       "Connection" "keep-alive")
    "X-Accel-Buffering" "no".

(** The events of a child other than standard output. *)
Definition silent_on_stdout (ev : ClaudeManager.ProcessEvent) : bool :=
  match ev with
  | ClaudeManager.StdoutData _ => false
  | _ => true
  end.

(** The [tool_result] events of one block of a user message. *)
Definition toolResultEvents (block : value) : list ClaudeEvent :=
  match ClaudeManager.toolResultBlockToEvent block with
  | Normal (Some event) => [event]
  | Normal None | Throw _ => []
  end.

(** The events that the manager emits under the name [event]. *)
Definition forwardedEvents (effs : list ClaudeManager.Effect) : list ClaudeEvent :=
  omap (fun eff => match eff with
                   | ClaudeManager.Emit name event =>
                       if String.eqb name "event" then Some event else None
                   | _ => None
                   end) effs.


(** * Properties *)

(** ** Lines and the carry-over buffer *)

Section Lines.
Import JsString.

Lemma split_lines_scan (s : string) :
  split_lines s = (scan s).1 ++ [(scan s).2].
Proof.
  induction s as [|c r IH]; simpl; [done|].
  destruct (scan r) as [ls tl]; simpl in *.
  destruct (Ascii.eqb c LF); simpl.
  - by rewrite IH.
  - rewrite IH. by destruct ls.
Qed.

Lemma pop_snoc (ls : list string) (x : string) : pop (ls ++ [x]) = (ls, Some x).
Proof.
  induction ls as [|l ls IH]; simpl; [done|].
  rewrite IH. by destruct ls.
Qed.

Lemma pop_split_lines (s : string) :
  pop (split_lines s) = ((scan s).1, Some (scan s).2).
Proof. by rewrite split_lines_scan, pop_snoc. Qed.

Lemma append_nil_l (t : string) : "" +:+ t = t.
Proof. reflexivity. Qed.

Lemma append_cons (c : ascii) (r t : string) : String c r +:+ t = String c (r +:+ t).
Proof. reflexivity. Qed.

Lemma append_empty_r (s : string) : s +:+ "" = s.
Proof. induction s as [|c r IH]; [done|]. by rewrite append_cons, IH. Qed.

Lemma append_assoc (s t u : string) : (s +:+ t) +:+ u = s +:+ (t +:+ u).
Proof. induction s as [|c r IH]; [done|]. by rewrite !append_cons, IH. Qed.

(** Scanning a text in two pieces: the second piece is scanned behind the
    unfinished line of the first. *)
Lemma scan_app (s t : string) :
  scan (s +:+ t) = ((scan s).1 ++ (scan ((scan s).2 +:+ t)).1,
                    (scan ((scan s).2 +:+ t)).2).
Proof.
  induction s as [|c r IH].
  - simpl. rewrite append_nil_l. by destruct (scan t).
  - rewrite append_cons. simpl. rewrite IH.
    destruct (scan r) as [ls tl]; simpl.
    destruct (Ascii.eqb c LF) eqn:Hc; simpl; [done|].
    destruct ls as [|l ls']; simpl; [|done].
    rewrite Hc.
    by destruct (scan (tl +:+ t)) as [[|? ?] ?].
Qed.

Lemma scan_tail_line_free (s : string) : line_free (scan s).2.
Proof.
  unfold line_free. induction s as [|c r IH]; simpl; [done|].
  destruct (scan r) as [ls tl]; simpl in *.
  destruct (Ascii.eqb c LF) eqn:Hc; simpl; [done|].
  destruct ls as [|l ls']; simpl; [|done].
  by rewrite IH, Hc.
Qed.

End Lines.

(** ** Searching a text *)

Section Search.
Import JsString.

Lemma strip_prefix_length (p s r : string) :
  strip_prefix p s = Some r -> String.length s = (String.length p + String.length r)%nat.
Proof.
  revert s. induction p as [|a p IH]; intros s Hs; simpl in *.
  - by inversion Hs.
  - destruct s as [|b s]; [done|].
    destruct (Ascii.eqb a b); [|done].
    simpl. by rewrite (IH _ Hs).
Qed.

Lemma find_sub_length (needle s before after : string) :
  find_sub needle s = Some (before, after) ->
  String.length s
  = (String.length before + String.length needle + String.length after)%nat.
Proof.
  revert before. induction s as [|c r IH]; intros before Hs; simpl in Hs.
  - destruct (strip_prefix needle "") as [x|] eqn:Hp; [|done].
    inversion Hs; subst. apply strip_prefix_length in Hp. simpl in *. lia.
  - destruct (strip_prefix needle (String c r)) as [x|] eqn:Hp.
    + inversion Hs; subst. apply strip_prefix_length in Hp. simpl in *. lia.
    + destruct (find_sub needle r) as [[b a]|] eqn:Hf; [|done].
      inversion Hs; subst. specialize (IH _ eq_refl). simpl. lia.
Qed.

End Search.

(** ** The output parser *)

Section OutputParserProperties.
Import JsString OutputParser.
Variable JSON_parse : string -> option value.
Variable stripAnsi : string -> string.

(** [parseJsonStream] decodes the complete lines of buffer and chunk and
    keeps the unfinished line. *)
Lemma parseJsonStream_scan (p : t) (chunk : string) :
  parseJsonStream JSON_parse p chunk
  = (flat_map (decodeLine JSON_parse) (scan (jsonBuffer p +:+ chunk)).1,
     {| buffer := buffer p; jsonBuffer := (scan (jsonBuffer p +:+ chunk)).2;
        isJsonMode := isJsonMode p |}).
Proof.
  unfold parseJsonStream. rewrite pop_split_lines.
  destruct (scan (jsonBuffer p +:+ chunk)) as [ls tl]; simpl.
  do 2 f_equal. by destruct tl.
Qed.

(** The carry-over buffer never holds a line feed. *)
Lemma parseJsonStream_line_free (p : t) (chunk : string) :
  line_free (jsonBuffer (parseJsonStream JSON_parse p chunk).2).
Proof. rewrite parseJsonStream_scan. apply scan_tail_line_free. Qed.

(** Chunk-boundary invariance of the buffering decoder: feeding the chunks
    one at a time gives the events, and leaves the parser in the state, of
    feeding their concatenation in one call. *)
Theorem OutputParser_chunk_boundary_invariance (p : t) (chunks : list string) :
  line_free (jsonBuffer p) ->
  feed_all (parseJsonStream JSON_parse) p chunks
  = parseJsonStream JSON_parse p (concat_chunks chunks).
Proof.
  revert p. induction chunks as [|chunk rest IH]; intros p Hp.
  - simpl. rewrite parseJsonStream_scan, append_empty_r, Hp. by destruct p.
  - simpl. pose proof (parseJsonStream_line_free p chunk) as Hfree.
    destruct (parseJsonStream JSON_parse p chunk) as [events p1] eqn:Hstep.
    rewrite (IH p1 Hfree).
    rewrite parseJsonStream_scan in Hstep. inversion Hstep; subst; clear Hstep.
    rewrite !parseJsonStream_scan. simpl.
    rewrite <- append_assoc, (scan_app (jsonBuffer p +:+ chunk)).
    simpl. by rewrite flat_map_app.
Qed.

Lemma match_between_length (open close buf content rest : string) :
  match_between open close buf = Some (content, rest) ->
  (String.length rest + String.length open + String.length close
   <= String.length buf)%nat.
Proof.
  unfold match_between. intros Hm.
  destruct (find_sub open buf) as [[b a]|] eqn:Ho; [|done].
  apply find_sub_length in Ho, Hm. lia.
Qed.

Lemma match_parameters_length (s params rest : string) :
  match_parameters s = Some (params, rest) ->
  (String.length rest <= String.length s)%nat.
Proof.
  unfold match_parameters. intros Hm.
  destruct (match_between _ _ s) as [[ps a]|] eqn:Hb; [|done].
  destruct (find_sub _ a) as [[b r]|] eqn:Hf; [|done].
  inversion Hm; subst. apply match_between_length in Hb.
  apply find_sub_length in Hf. lia.
Qed.

Lemma match_name_length (fuel : nat) (s name params rest : string) :
  match_name fuel s = Some (name, params, rest) ->
  (String.length rest <= String.length s)%nat.
Proof.
  revert s. induction fuel as [|fuel IH]; intros s Hm; simpl in Hm; [done|].
  destruct (find_sub "<name>" s) as [[b a]|] eqn:Ho; [|done].
  destruct (find_sub "</name>" a) as [[n a']|] eqn:Hc; [|done].
  apply find_sub_length in Ho, Hc.
  destruct (has_line_terminator n).
  - apply IH in Hm. lia.
  - destruct (match_parameters a') as [[ps r]|] eqn:Hp; [|done].
    inversion Hm; subst. apply match_parameters_length in Hp. lia.
Qed.

(** The search for the name needs no more turns than the text has
    characters: beyond that, their number does not matter. *)
Lemma match_name_fuel (fuel1 fuel2 : nat) (s : string) :
  (String.length s <= fuel1)%nat -> (String.length s <= fuel2)%nat ->
  match_name fuel1 s = match_name fuel2 s.
Proof.
  revert fuel2 s. induction fuel1 as [|fuel1 IH]; intros fuel2 s H1 H2.
  - destruct s; [|simpl in H1; lia]. by destruct fuel2.
  - destruct fuel2 as [|fuel2].
    { destruct s; [done|simpl in H2; lia]. }
    simpl. destruct (find_sub "<name>" s) as [[b a]|] eqn:Ho; [|done].
    destruct (find_sub "</name>" a) as [[n a']|] eqn:Hc; [|done].
    destruct (has_line_terminator n); [|done].
    apply find_sub_length in Ho. simpl in Ho. apply IH; lia.
Qed.

(** Every event that [extractNextEvent] finds shortens the buffer. *)
Lemma extractNextEvent_shrinks (buf rest : string) (event : ClaudeEvent) :
  extractNextEvent JSON_parse buf = Some (event, rest) ->
  (String.length rest < String.length buf)%nat.
Proof.
  unfold extractNextEvent. intros Hx.
  destruct (match_between "<thinking>" _ buf) as [[c r]|] eqn:H1.
  { inversion Hx; subst. apply match_between_length in H1. simpl in H1. lia. }
  destruct (match_tool_use buf) as [[[n ps] r]|] eqn:H2.
  { inversion Hx; subst. unfold match_tool_use in H2.
    destruct (find_sub _ buf) as [[b a]|] eqn:Ho; [|done].
    apply find_sub_length in Ho. apply match_name_length in H2.
    simpl in Ho. lia. }
  destruct (match_between "<tool_result>" _ buf) as [[c r]|] eqn:H3.
  { inversion Hx; subst. apply match_between_length in H3. simpl in H3. lia. }
  destruct (match_message buf) as [[c r]|] eqn:H4; [|done].
  inversion Hx; subst. unfold match_message in H4.
  destruct (strip_prefix _ buf) as [r0|] eqn:Hp; [|done].
  apply strip_prefix_length in Hp. simpl in Hp.
  destruct (find_sub _ r0) as [[b a]|] eqn:Hf.
  - inversion H4; subst. apply find_sub_length in Hf. simpl in *. lia.
  - inversion H4; subst. simpl. lia.
Qed.

(** With as many turns as the buffer has characters the loop of
    [parseTextOutput] ends at its [break]: no event is left to extract. *)
Lemma extractLoop_reaches_break (fuel : nat) (buf : string) :
  (String.length buf <= fuel)%nat ->
  extractNextEvent JSON_parse (extractLoop JSON_parse fuel buf).2 = None.
Proof.
  revert buf. induction fuel as [|fuel IH]; intros buf Hlen; simpl.
  - destruct buf; [done|simpl in Hlen; lia].
  - destruct (extractNextEvent JSON_parse buf) as [[e r]|] eqn:Hx; [|done].
    apply extractNextEvent_shrinks in Hx.
    specialize (IH r ltac:(lia)).
    by destruct (extractLoop JSON_parse fuel r).
Qed.

(** Beyond the length of the buffer the number of turns allowed does not
    matter. *)
Lemma extractLoop_fuel (fuel1 fuel2 : nat) (buf : string) :
  (String.length buf <= fuel1)%nat -> (String.length buf <= fuel2)%nat ->
  extractLoop JSON_parse fuel1 buf = extractLoop JSON_parse fuel2 buf.
Proof.
  revert fuel2 buf. induction fuel1 as [|fuel1 IH]; intros fuel2 buf H1 H2.
  - destruct buf; [|simpl in H1; lia]. by destruct fuel2.
  - destruct fuel2 as [|fuel2].
    { destruct buf; [done|simpl in H2; lia]. }
    simpl. destruct (extractNextEvent JSON_parse buf) as [[e r]|] eqn:Hx; [|done].
    apply extractNextEvent_shrinks in Hx. by rewrite (IH fuel2 r) by lia.
Qed.

End OutputParserProperties.

Section OutputParserParse.
Import JsString OutputParser.
Variable JSON_parse : string -> option value.
Variable stripAnsi : string -> string.

(** C10. Every call of [parse] returns the events of the mode's parser
    followed by one [raw_output] event that carries the chunk verbatim, so
    that the array is never empty and ends in that event; [raw_output] is a
    member of [EventType] that the specification's list of event types does
    not have. In text mode the call does return: the loop has reached its
    [break]. *)
Theorem parse_appends_raw_output (p : t) (rawOutput : string) :
  let decoded := if isJsonMode p then parseJsonStream JSON_parse p rawOutput
                 else parseTextOutput JSON_parse stripAnsi p rawOutput in
  let result := parse JSON_parse stripAnsi p rawOutput in
  result.1 = decoded.1 ++ [RawOutputEvent (VString rawOutput) true]
  /\ result.2 = decoded.2
  /\ last result.1 = Some (RawOutputEvent (VString rawOutput) true)
  /\ result.1 <> []
  /\ In (event_type (RawOutputEvent (VString rawOutput) true)) EventType
  /\ ~ In (event_type (RawOutputEvent (VString rawOutput) true)) spec_event_types
  /\ (if isJsonMode p then True
      else extractNextEvent JSON_parse (buffer result.2) = None).
Proof.
  intros decoded result.
  assert (Hres : result = (decoded.1 ++ [RawOutputEvent (VString rawOutput) true],
                           decoded.2)).
  { unfold result, parse, decoded. by destruct (if isJsonMode p then _ else _). }
  rewrite Hres; simpl.
  split_and!; try done.
  - by rewrite last_snoc.
  - by destruct (decoded.1).
  - simpl. tauto.
  - simpl. intuition discriminate.
  - unfold decoded. destruct (isJsonMode p); [done|].
    unfold parseTextOutput.
    pose proof (extractLoop_reaches_break JSON_parse
                  (String.length (buffer p +:+ stripAnsi rawOutput))
                  (buffer p +:+ stripAnsi rawOutput) ltac:(lia)) as Hbreak.
    by destruct (extractLoop _ _ _).
Qed.

End OutputParserParse.

(** ** The process supervisor *)

Section ClaudeManagerProperties.
Import JsString ClaudeManager.
Variable JSON_parse : string -> option value.
Variable spawn_stdin : string -> list value -> string -> bool.

(** C3. A message that arrives while a job is in flight is rejected at
    once with the busy error: the call throws, the manager is the one it
    was (busy flag, session id and time stamps included), and nothing
    happened outside, so that no process was spawned. *)
Theorem sendMessage_busy_rejected (now : Z) (message : string) (m : t) :
  isBusy m = true ->
  sendMessage spawn_stdin now message m = (Throw busyError, m, []).
Proof. unfold isBusy, sendMessage. by intros ->. Qed.

(** Case analysis along a decoder: on what each property read gives, and
    on each test. *)
Ltac step_decoder :=
  repeat match goal with
         | |- context [get ?v ?k] => destruct (get v k); simpl; try done
         | |- context [get_opt ?v ?k] => destruct (get_opt v k); simpl; try done
         | |- context [if ?b then _ else _] => destruct b; simpl; try done
         end.

Lemma contentBlockToEvent_not_completed (block : value) (event : ClaudeEvent) :
  contentBlockToEvent block = Normal (Some event) -> is_completed event = false.
Proof. unfold contentBlockToEvent. step_decoder; by intros [= <-]. Qed.

Lemma toolResultBlockToEvent_not_completed (block : value) (event : ClaudeEvent) :
  toolResultBlockToEvent block = Normal (Some event) -> is_completed event = false.
Proof. unfold toolResultBlockToEvent. step_decoder; by intros [= <-]. Qed.

Lemma jsonToEvent_not_completed (data : value) (event : ClaudeEvent) :
  jsonToEvent data = Normal (Some event) -> is_completed event = false.
Proof. unfold jsonToEvent. step_decoder; by intros [= <-]. Qed.

Lemma emitBlocks_not_completed
    (f : value -> completion (option ClaudeEvent)) (blocks : list value) :
  (forall block event, f block = Normal (Some event) -> is_completed event = false) ->
  filter (fun e => is_completed e = true) (emitBlocks f blocks) = [].
Proof.
  intros Hf. induction blocks as [|block rest IH]; simpl; [done|].
  destruct (f block) as [[event|]|err] eqn:Hblock; try done.
  rewrite filter_cons_False; [done|].
  rewrite (Hf _ _ Hblock). done.
Qed.

(** The decoder of the manager never gives a [completed] event. *)
Lemma recordEvents_not_completed (data : value) :
  filter (fun e => is_completed e = true) (recordEvents data) = [].
Proof.
  unfold recordEvents.
  destruct (_ ≫= _) as [[ty content]|err]; [|done].
  destruct (is_str ty "assistant" && truthy content).
  { destruct (iterate content); [|done].
    apply emitBlocks_not_completed, contentBlockToEvent_not_completed. }
  destruct (is_str ty "user" && truthy content).
  { destruct (iterate content); [|done].
    apply emitBlocks_not_completed, toolResultBlockToEvent_not_completed. }
  destruct (jsonToEvent data) as [[event|]|err] eqn:Hev; try done.
  rewrite filter_cons_False; [done|].
  by rewrite (jsonToEvent_not_completed _ _ Hev).
Qed.

Lemma processLines_not_completed (current : value) (lines : list string) :
  filter (fun e => is_completed e = true)
         (processLines JSON_parse current lines).2 = [].
Proof.
  revert current. induction lines as [|line rest IH]; intros current; simpl; [done|].
  unfold processLine.
  destruct (decodeLine JSON_parse line) as [data|]; simpl.
  - specialize (IH (captureSessionId current data)).
    destruct (processLines _ _ rest) as [sid events]. simpl in *.
    by rewrite filter_app, IH, recordEvents_not_completed.
  - specialize (IH current). by destruct (processLines _ _ rest).
Qed.

Lemma emittedEvents_app (effs1 effs2 : list Effect) :
  emittedEvents (effs1 ++ effs2) = emittedEvents effs1 ++ emittedEvents effs2.
Proof. apply omap_app. Qed.

Lemma emittedEvents_emit (events : list ClaudeEvent) :
  emittedEvents (map (Emit "event") events) = events.
Proof. induction events as [|e rest IH]; simpl; [done|]. by f_equal. Qed.

Lemma handleAll_app (evs1 evs2 : list ProcessEvent) (m : t) :
  handleAll JSON_parse (evs1 ++ evs2) m
  = let '(m1, effs1) := handleAll JSON_parse evs1 m in
    let '(m2, effs2) := handleAll JSON_parse evs2 m1 in
    (m2, effs1 ++ effs2).
Proof.
  revert m. induction evs1 as [|ev rest IH]; intros m; simpl.
  - by destruct (handleAll JSON_parse evs2 m).
  - destruct (handle JSON_parse ev m) as [m1 effs1]. rewrite IH.
    destruct (handleAll JSON_parse rest m1) as [m2 effs2].
    destruct (handleAll JSON_parse evs2 m2) as [m3 effs3].
    by rewrite app_assoc.
Qed.

(** The output of the child gives no [completed] event. *)
Lemma output_not_completed (evs : list ProcessEvent) (m : t) :
  forallb isOutput evs = true ->
  filter (fun e => is_completed e = true)
         (emittedEvents (handleAll JSON_parse evs m).2) = [].
Proof.
  revert m. induction evs as [|ev rest IH]; intros m Hout; simpl; [done|].
  simpl in Hout. apply andb_true_iff in Hout as [Hev Hrest].
  assert (Hstep : filter (fun e => is_completed e = true)
                    (emittedEvents (handle JSON_parse ev m).2) = []).
  { destruct ev as [chunk|chunk|code signal|message stack]; try done. simpl.
    unfold parseJsonStream. simpl.
    pose proof (processLines_not_completed (sessionId m) (split_lines chunk)).
    destruct (processLines _ _ _) as [sid events]. simpl in *.
    by rewrite emittedEvents_emit. }
  destruct (handle JSON_parse ev m) as [m1 effs1].
  specialize (IH m1 Hrest). destruct (handleAll JSON_parse rest m1) as [m2 effs2].
  simpl in *. by rewrite emittedEvents_app, filter_app, Hstep, IH.
Qed.

(** The text of an exit code is its decimal numeral: read as one, it
    gives the code back. *)
Lemma showCode_reads_back (n : Z) :
  Z.of_int <$> NilZero.int_of_string (showCode (Some n)) = Some n.
Proof.
  unfold showCode. rewrite NilZero.isi.
  - simpl. f_equal. apply DecimalZ.of_to.
  - destruct n as [|p|p]; simpl; try discriminate.
    intros [= Hp]. by apply DecimalPos.Unsigned.to_uint_nonnil in Hp.
  - destruct n as [|p|p]; simpl; try discriminate.
    intros [= Hp]. by apply DecimalPos.Unsigned.to_uint_nonnil in Hp.
Qed.

Lemma handle_exit_failure (m : t) (n : Z) (signal : option string) :
  n <> 0%Z ->
  handle JSON_parse (Exit (Some n) signal) m
  = (set_isProcessing false m,
     [Emit "event"
        (ErrorEvent (VString ("Claude exited with code " +:+ showCode (Some n)))
                    VUndefined)]).
Proof. intros Hn. by destruct n. Qed.

(** C4. The exit handler emits exactly one event and clears the busy
    flag: [completed] for exit code 0, and for every other exit code an
    [error] event whose text ends with the decimal numeral of the code, so
    that the code can be read back from the event: code 1 gives the text
    that ends in 1, code 137 the one that ends in 137. Over a whole job,
    whatever the child wrote before, an exit with code 0 adds one event to
    those of the output, the only [completed] event of the job, and an exit
    with another code adds one event too, the [error] event with the code,
    and the job has no [completed] event. *)
Theorem exit_handler_emits_one_event (m : t) (signal : option string) :
  handle JSON_parse (Exit (Some 0%Z) signal) m
  = (set_isProcessing false m, [Emit "event" (CompletedEvent VUndefined)])
  /\ handle JSON_parse (Exit (Some 1%Z) signal) m
     = (set_isProcessing false m,
        [Emit "event" (ErrorEvent (VString "Claude exited with code 1") VUndefined)])
  /\ handle JSON_parse (Exit (Some 2%Z) signal) m
     = (set_isProcessing false m,
        [Emit "event" (ErrorEvent (VString "Claude exited with code 2") VUndefined)])
  /\ handle JSON_parse (Exit (Some 137%Z) signal) m
     = (set_isProcessing false m,
        [Emit "event" (ErrorEvent (VString "Claude exited with code 137") VUndefined)])
  /\ (forall n : Z, n <> 0%Z ->
      exists digits : string,
        handle JSON_parse (Exit (Some n) signal) m
        = (set_isProcessing false m,
           [Emit "event"
              (ErrorEvent (VString ("Claude exited with code " +:+ digits))
                          VUndefined)])
        /\ Z.of_int <$> NilZero.int_of_string digits = Some n)
  /\ isBusy (set_isProcessing false m) = false
  /\ (forall output : list ProcessEvent,
      forallb isOutput output = true ->
      let job := handleAll JSON_parse (output ++ [Exit (Some 0%Z) signal]) m in
      emittedEvents job.2
      = emittedEvents (handleAll JSON_parse output m).2 ++ [CompletedEvent VUndefined]
      /\ filter (fun e => is_completed e = true) (emittedEvents job.2)
         = [CompletedEvent VUndefined]
      /\ isBusy job.1 = false)
  /\ (forall (output : list ProcessEvent) (n : Z),
      forallb isOutput output = true -> n <> 0%Z ->
      let job := handleAll JSON_parse (output ++ [Exit (Some n) signal]) m in
      exists digits : string,
        emittedEvents job.2
        = emittedEvents (handleAll JSON_parse output m).2
          ++ [ErrorEvent (VString ("Claude exited with code " +:+ digits)) VUndefined]
        /\ Z.of_int <$> NilZero.int_of_string digits = Some n
        /\ filter (fun e => is_completed e = true) (emittedEvents job.2) = []
        /\ last (emittedEvents job.2)
           = Some (ErrorEvent (VString ("Claude exited with code " +:+ digits))
                              VUndefined)
        /\ isBusy job.1 = false).
Proof.
  split_and!; try done.
  - intros n Hn. exists (showCode (Some n)).
    split; [by apply handle_exit_failure|apply showCode_reads_back].
  - intros output Hout job. unfold job. rewrite handleAll_app.
    pose proof (output_not_completed output m Hout) as Hnone.
    destruct (handleAll JSON_parse output m) as [m1 effs1].
    cbn [handleAll handle fst snd] in *.
    by rewrite emittedEvents_app, filter_app, Hnone.
  - intros output n Hout Hn job. unfold job. rewrite handleAll_app.
    pose proof (output_not_completed output m Hout) as Hnone.
    destruct (handleAll JSON_parse output m) as [m1 effs1].
    cbn [handleAll]. rewrite (handle_exit_failure m1 n signal Hn). cbn [fst snd] in *.
    exists (showCode (Some n)).
    rewrite emittedEvents_app, filter_app, Hnone.
    split_and!; try done.
    + apply showCode_reads_back.
    + simpl. by rewrite last_snoc.
Qed.

(** C9. An exit with a [null] code, as after a kill by signal, emits an
    [error] event and clears the busy flag; the handler emits [completed]
    for no other code than 0. *)
Theorem exit_without_code_is_error (m : t) (signal : option string) :
  handle JSON_parse (Exit None signal) m
  = (set_isProcessing false m,
     [Emit "event" (ErrorEvent (VString "Claude exited with code null") VUndefined)])
  /\ isBusy (handle JSON_parse (Exit None signal) m).1 = false
  /\ (forall (code : option Z) (name : string) (summary : value),
      In (Emit name (CompletedEvent summary))
         (handle JSON_parse (Exit code signal) m).2 ->
      code = Some 0%Z).
Proof.
  split_and!; try done.
  intros code name summary Hin.
  destruct code as [[| |]|]; simpl in Hin; try done;
    by destruct Hin as [Hin|[]]; inversion Hin.
Qed.

End ClaudeManagerProperties.

(** ** The continuation token *)

Section ContinuationToken.
Import JsString ClaudeManager.
Variable JSON_parse : string -> option value.
Variable spawn_stdin : string -> list value -> string -> bool.

Lemma strict_eq_true (a b : value) : strict_eq a b = true -> a = b.
Proof.
  destruct a, b; simpl; try done.
  - intros Hb. f_equal. by apply Bool.eqb_prop.
  - intros Hq. f_equal. by apply Qc_eq_bool_correct.
  - intros Hs. f_equal. by apply String.eqb_eq.
Qed.

(** A record that carries a session id makes it the stored one. *)
Lemma captureSessionId_carried (current data v : value) :
  recordSessionId data = Normal v -> truthy v = true ->
  captureSessionId current data = v.
Proof.
  unfold captureSessionId. intros -> ->.
  destruct (strict_eq v current) eqn:Heq; [|done].
  simpl. symmetry. by apply strict_eq_true.
Qed.

(** A record that carries none leaves the stored one alone. *)
Lemma captureSessionId_not_carried (current data : value) :
  carriesSessionId data = false -> captureSessionId current data = current.
Proof.
  unfold carriesSessionId, captureSessionId.
  destruct (recordSessionId data) as [v|]; [|done]. by intros ->.
Qed.

Lemma processLines_sessionId (current : value) (lines : list string) :
  (processLines JSON_parse current lines).1
  = foldl captureSessionId current (omap (decodeLine JSON_parse) lines).
Proof.
  revert current. induction lines as [|line rest IH]; intros current; simpl; [done|].
  unfold processLine.
  destruct (decodeLine JSON_parse line) as [data|]; simpl.
  - specialize (IH (captureSessionId current data)).
    by destruct (processLines _ _ rest).
  - specialize (IH current). by destruct (processLines _ _ rest).
Qed.

Lemma handle_config (ev : ProcessEvent) (m : t) :
  config (handle JSON_parse ev m).1 = config m.
Proof.
  destruct ev as [chunk|chunk|code signal|message stack]; simpl; try done.
  - unfold parseJsonStream. simpl. by destruct (processLines _ _ _).
  - by destruct code as [[| |]|].
Qed.

Lemma handleAll_config (evs : list ProcessEvent) (m : t) :
  config (handleAll JSON_parse evs m).1 = config m.
Proof.
  revert m. induction evs as [|ev rest IH]; intros m; simpl; [done|].
  pose proof (handle_config ev m) as Hc.
  destruct (handle JSON_parse ev m) as [m1 effs1].
  specialize (IH m1). destruct (handleAll JSON_parse rest m1). simpl in *. congruence.
Qed.

(** The stored session id after a run of the child: the decoded records
    were scanned in their order. *)
Lemma handleAll_sessionId (evs : list ProcessEvent) (m : t) :
  sessionId (handleAll JSON_parse evs m).1
  = foldl captureSessionId (sessionId m) (decodedRecords JSON_parse evs).
Proof.
  revert m. induction evs as [|ev rest IH]; intros m; simpl; [done|].
  assert (Hstep : sessionId (handle JSON_parse ev m).1
                  = foldl captureSessionId (sessionId m)
                      (match ev with
                       | StdoutData chunk =>
                           omap (decodeLine JSON_parse) (split_lines chunk)
                       | _ => []
                       end)).
  { destruct ev as [chunk|chunk|code signal|message stack]; simpl; try done.
    - unfold parseJsonStream. simpl.
      rewrite <- processLines_sessionId. by destruct (processLines _ _ _).
    - by destruct code as [[| |]|]. }
  destruct (handle JSON_parse ev m) as [m1 effs1]. simpl in Hstep.
  specialize (IH m1). destruct (handleAll JSON_parse rest m1) as [m2 effs2].
  simpl in *. rewrite IH, Hstep.
  destruct ev; simpl; try done. by rewrite foldl_app.
Qed.

Lemma foldl_not_carried (current : value) (records : list value) :
  Forall (fun d => carriesSessionId d = false) records ->
  foldl captureSessionId current records = current.
Proof.
  induction 1 as [|d rest Hd _ IH]; simpl; [done|].
  by rewrite captureSessionId_not_carried.
Qed.

(** C6. When a decoded record of a run carries the session id [token]
    in its field [session_id], and no later decoded record carries a
    session id in either of the two fields that the manager reads
    ([session_id] and, failing that, [sessionId]), the stored token is
    [token] after the run, the arguments built from it end with
    [--continue token], and the next message, sent once the manager is
    idle, spawns the child with these arguments. *)
Theorem continuation_token_replayed
    (m : t) (evs : list ProcessEvent) (earlier later : list value)
    (record : value) (token : string) (now : Z) (message : string) :
  decodedRecords JSON_parse evs = earlier ++ record :: later ->
  get record "session_id" = Normal (VString token) ->
  token <> "" ->
  Forall (fun d => carriesSessionId d = false) later ->
  let m1 := (handleAll JSON_parse evs m).1 in
  getSessionId m1 = VString token
  /\ buildArgs m1
     = map VString (printModeArgs ++ default [] (args (config m)))
       ++ [VString "--continue"; VString token]
  /\ (isBusy m1 = false ->
      exists m2 effs,
        sendMessage spawn_stdin now message m1
        = (Normal tt, m2,
           Spawn (claudePath (config m))
                 (map VString (printModeArgs ++ default [] (args (config m)))
                  ++ [VString "--continue"; VString token])
                 (workingDirectory (config m)) :: effs)
        /\ isBusy m2 = true /\ getSessionId m2 = VString token).
Proof.
  intros Hrun Hrecord Htoken Hlater m1.
  assert (Hsid : sessionId m1 = VString token).
  { unfold m1. rewrite handleAll_sessionId, Hrun, foldl_app. simpl.
    rewrite (foldl_not_carried _ later Hlater).
    apply captureSessionId_carried.
    - unfold recordSessionId. rewrite Hrecord. simpl.
      destruct record; try done.
      simpl. unfold or. simpl.
      by destruct token.
    - by destruct token. }
  assert (Hcfg : config m1 = config m) by apply handleAll_config.
  assert (Hargs : buildArgs m1
                  = map VString (printModeArgs ++ default [] (args (config m)))
                    ++ [VString "--continue"; VString token]).
  { unfold buildArgs. rewrite Hsid, Hcfg. by destruct token. }
  split; [done|]. split; [done|].
  intros Hidle. unfold isBusy in Hidle.
  unfold sendMessage. rewrite Hidle, Hargs, Hcfg.
  eexists _, _. split_and!; done.
Qed.

End ContinuationToken.

(** ** Reset *)

Section Reset.
Import JsString ClaudeManager.
Variable JSON_parse : string -> option value.
Variable spawn_stdin : string -> list value -> string -> bool.

Lemma stop_config (wait : StopWait) (m : t) :
  config (stop JSON_parse wait m).1 = config m.
Proof.
  unfold stop. destruct (currentProcess m); [|done].
  destruct wait as [before code signal|before].
  - pose proof (handleAll_config JSON_parse before m) as H1.
    destruct (handleAll JSON_parse before m) as [m1 effs1].
    pose proof (handle_config JSON_parse (Exit code signal) m1) as H2.
    destruct (handle JSON_parse (Exit code signal) m1) as [m2 effs2].
    simpl in *. congruence.
  - pose proof (handleAll_config JSON_parse before m) as H1.
    by destruct (handleAll JSON_parse before m) as [m1 effs1].
Qed.

(** Once [stop()] has resolved for a manager that had a child, the
    manager is idle. *)
Lemma stop_idle (wait : StopWait) (m : t) :
  currentProcess m <> None -> isProcessing (stop JSON_parse wait m).1 = false.
Proof.
  unfold stop. destruct (currentProcess m); [intros _|done].
  destruct wait as [before code signal|before].
  - destruct (handleAll JSON_parse before m) as [m1 effs1].
    by destruct (handle JSON_parse (Exit code signal) m1) as [m2 effs2].
  - by destruct (handleAll JSON_parse before m) as [m1 effs1].
Qed.

Lemma stop_without_child (wait : StopWait) (m : t) :
  currentProcess m = None -> stop JSON_parse wait m = (m, []).
Proof. unfold stop. by intros ->. Qed.

Lemma forallb_not_carried (records : list value) :
  forallb (fun d => negb (carriesSessionId d)) records = true ->
  Forall (fun d => carriesSessionId d = false) records.
Proof.
  rewrite forallb_forall, List.Forall_forall. intros Hall d Hd.
  specialize (Hall d Hd). by destruct (carriesSessionId d).
Qed.

(** Output without a session id leaves the stored one alone. *)
Lemma handleAll_quiet (evs : list ProcessEvent) (m : t) :
  Forall (fun d => carriesSessionId d = false) (decodedRecords JSON_parse evs) ->
  sessionId (handleAll JSON_parse evs m).1 = sessionId m.
Proof. intros Hquiet. by rewrite handleAll_sessionId, foldl_not_carried. Qed.

Lemma stop_quiet (wait : StopWait) (m : t) :
  Forall (fun d => carriesSessionId d = false)
         (decodedRecords JSON_parse (ManagerRun.heardBefore wait)) ->
  sessionId (stop JSON_parse wait m).1 = sessionId m.
Proof.
  intros Hquiet. unfold stop. destruct (currentProcess m); [|done].
  destruct wait as [before code signal|before]; simpl in Hquiet.
  - pose proof (handleAll_quiet before m Hquiet) as Hsid.
    destruct (handleAll JSON_parse before m) as [m1 effs1].
    simpl in *. by destruct code as [[| |]|].
  - pose proof (handleAll_quiet before m Hquiet) as Hsid.
    by destruct (handleAll JSON_parse before m) as [m1 effs1].
Qed.

Lemma handle_spawns_nothing (ev : ProcessEvent) (m : t) (command : string)
    (argv : list value) (cwd : string) :
  In (Spawn command argv cwd) (handle JSON_parse ev m).2 -> False.
Proof.
  destruct ev as [chunk|chunk|code signal|message stack]; simpl.
  - unfold parseJsonStream. simpl. destruct (processLines _ _ _) as [sid events].
    simpl. rewrite in_map_iff. by intros (event & Hev & _).
  - done.
  - destruct code as [[| |]|]; simpl; by intros [Hin|[]].
  - by intros [Hin|[]].
Qed.

Lemma handleAll_spawns_nothing (evs : list ProcessEvent) (m : t) (command : string)
    (argv : list value) (cwd : string) :
  In (Spawn command argv cwd) (handleAll JSON_parse evs m).2 -> False.
Proof.
  revert m. induction evs as [|ev rest IH]; intros m; simpl; [done|].
  pose proof (handle_spawns_nothing ev m command argv cwd) as Hstep.
  destruct (handle JSON_parse ev m) as [m1 effs1].
  specialize (IH m1). destruct (handleAll JSON_parse rest m1) as [m2 effs2].
  simpl in *. rewrite in_app_iff. by intros [Hin|Hin]; auto.
Qed.

Lemma stop_spawns_nothing (wait : StopWait) (m : t) (command : string)
    (argv : list value) (cwd : string) :
  In (Spawn command argv cwd) (stop JSON_parse wait m).2 -> False.
Proof.
  unfold stop. destruct (currentProcess m); [|done].
  destruct wait as [before code signal|before].
  - pose proof (handleAll_spawns_nothing before m command argv cwd) as Hbefore.
    destruct (handleAll JSON_parse before m) as [m1 effs1].
    pose proof (handle_spawns_nothing (Exit code signal) m1 command argv cwd) as Hexit.
    destruct (handle JSON_parse (Exit code signal) m1) as [m2 effs2].
    simpl in *. rewrite in_app_iff. by intros [Hin|[Hin|Hin]]; auto.
  - pose proof (handleAll_spawns_nothing before m command argv cwd) as Hbefore.
    destruct (handleAll JSON_parse before m) as [m1 effs1].
    simpl in *. rewrite in_app_iff. intros [Hin|[Hin|Hin]]; auto; try done.
    destruct (currentProcess m1); simpl in Hin; by intuition.
Qed.

(** What a step does to the configuration and to the session id, and
    with which arguments it spawns. *)
Lemma step_config (a : ManagerRun.Action) (m : t) :
  config (ManagerRun.step JSON_parse spawn_stdin a m).1 = config m.
Proof.
  destruct a as [now|now message|ev|wait|wait]; simpl.
  - done.
  - unfold sendMessage. by destruct (isProcessing m).
  - apply handle_config.
  - apply stop_config.
  - unfold restart. pose proof (stop_config wait m).
    by destruct (stop JSON_parse wait m).
Qed.

Lemma step_quiet (a : ManagerRun.Action) (m : t) :
  ManagerRun.quiet JSON_parse a = true ->
  sessionId m = VNull ->
  sessionId (ManagerRun.step JSON_parse spawn_stdin a m).1 = VNull.
Proof.
  intros Hquiet Hsid. destruct a as [now|now message|ev|wait|wait]; simpl in *.
  - done.
  - unfold sendMessage. by destruct (isProcessing m).
  - apply forallb_not_carried in Hquiet.
    pose proof (handleAll_quiet [ev] m Hquiet) as Hstep. simpl in Hstep.
    destruct (handle JSON_parse ev m) as [m1 effs1]. simpl in *. congruence.
  - apply forallb_not_carried in Hquiet. by rewrite stop_quiet.
  - unfold restart. by destruct (stop JSON_parse wait m).
Qed.

Lemma step_spawns (a : ManagerRun.Action) (m : t) (command : string)
    (argv : list value) (cwd : string) :
  In (Spawn command argv cwd) (ManagerRun.step JSON_parse spawn_stdin a m).2 ->
  argv = buildArgs m.
Proof.
  destruct a as [now|now message|ev|wait|wait]; simpl.
  - by intros [Hin|[]].
  - unfold sendMessage. destruct (isProcessing m); simpl; [done|].
    intros [Hin|Hin]; [by inversion Hin|].
    destruct (spawn_stdin _ _ _); simpl in Hin; by intuition.
  - intros Hin. by apply handle_spawns_nothing in Hin.
  - intros Hin. by apply stop_spawns_nothing in Hin.
  - unfold restart.
    pose proof (stop_spawns_nothing wait m command argv cwd) as Hstop.
    destruct (stop JSON_parse wait m). simpl in *. intros Hin. by apply Hstop in Hin.
Qed.

(** As long as no decoded record carries a session id, a manager without
    one stays without one, and spawns with the plain arguments. *)
Lemma run_quiet (actions : list ManagerRun.Action) (m : t) :
  forallb (ManagerRun.quiet JSON_parse) actions = true ->
  sessionId m = VNull ->
  sessionId (ManagerRun.run JSON_parse spawn_stdin actions m).1 = VNull
  /\ config (ManagerRun.run JSON_parse spawn_stdin actions m).1 = config m
  /\ forall command argv cwd,
       In (Spawn command argv cwd)
          (ManagerRun.run JSON_parse spawn_stdin actions m).2 ->
       argv = map VString (printModeArgs ++ default [] (args (config m))).
Proof.
  revert m. induction actions as [|a rest IH]; intros m Hquiet Hsid; simpl.
  { split_and!; done. }
  simpl in Hquiet. apply andb_true_iff in Hquiet as [Ha Hrest].
  pose proof (step_quiet a m Ha Hsid) as Hsid1.
  pose proof (step_config a m) as Hcfg1.
  pose proof (step_spawns a m) as Hspawn1.
  destruct (ManagerRun.step JSON_parse spawn_stdin a m) as [m1 effs1].
  simpl in *. destruct (IH m1 Hrest Hsid1) as (Hsid2 & Hcfg2 & Hspawn2).
  destruct (ManagerRun.run JSON_parse spawn_stdin rest m1) as [m2 effs2].
  simpl in *. split_and!; [done|congruence|].
  intros command argv cwd. rewrite in_app_iff. intros [Hin|Hin].
  - rewrite (Hspawn1 _ _ _ Hin). unfold buildArgs. rewrite Hsid. simpl.
    by rewrite app_nil_r.
  - rewrite (Hspawn2 _ _ _ Hin). by rewrite Hcfg1.
Qed.

(** C7. After [restart()] the stored session id is [null], whatever the
    child wrote while it was being stopped, and it stays [null] through
    whatever happens next (messages, output and end of their children,
    stops and restarts) as long as no decoded record carries a session id.
    Every child spawned in that time, and the child of a message sent after
    it, gets the print-mode and the configured arguments and nothing after
    them: [--continue] is among the arguments only if the configuration
    put it there. A message sent right after the restart is rejected only
    if the manager was busy without ever having had a child. *)
Theorem restart_clears_continuation
    (wait : StopWait) (m : t) (later : list ManagerRun.Action)
    (now : Z) (message : string) :
  forallb (ManagerRun.quiet JSON_parse) later = true ->
  let m1 := (restart JSON_parse wait m).1 in
  let plain := map VString (printModeArgs ++ default [] (args (config m))) in
  let m2 := (ManagerRun.run JSON_parse spawn_stdin later m1).1 in
  getSessionId m1 = VNull
  /\ buildArgs m1 = plain
  /\ (In (VString "--continue") plain ->
      In "--continue" (default [] (args (config m))))
  /\ match sendMessage spawn_stdin now message m1 with
     | (Throw _, _, effs) =>
         effs = [] /\ currentProcess m = None /\ isBusy m = true
     | (Normal _, _, effs) =>
         exists rest,
           effs = Spawn (claudePath (config m)) plain (workingDirectory (config m))
                    :: rest
           /\ forall command argv cwd, In (Spawn command argv cwd) rest -> False
     end
  /\ getSessionId m2 = VNull
  /\ buildArgs m2 = plain
  /\ (forall command argv cwd,
      In (Spawn command argv cwd)
         (ManagerRun.run JSON_parse spawn_stdin later m1).2 ->
      argv = plain)
  /\ match sendMessage spawn_stdin now message m2 with
     | (Throw _, _, effs) => effs = [] /\ isBusy m2 = true
     | (Normal _, _, effs) =>
         exists rest,
           effs = Spawn (claudePath (config m)) plain (workingDirectory (config m))
                    :: rest
           /\ forall command argv cwd, In (Spawn command argv cwd) rest -> False
     end.
Proof.
  intros Hquiet m1 plain m2.
  assert (Hsid : sessionId m1 = VNull).
  { unfold m1, restart. by destruct (stop JSON_parse wait m). }
  assert (Hcfg : config m1 = config m).
  { unfold m1, restart. pose proof (stop_config wait m).
    by destruct (stop JSON_parse wait m). }
  assert (Hargs : buildArgs m1 = plain).
  { unfold buildArgs. rewrite Hsid, Hcfg. simpl. by rewrite app_nil_r. }
  destruct (run_quiet later m1 Hquiet Hsid) as (Hsid2 & Hcfg2 & Hspawn2).
  fold m2 in Hsid2, Hcfg2. rewrite Hcfg in Hcfg2, Hspawn2.
  assert (Hargs2 : buildArgs m2 = plain).
  { unfold buildArgs. rewrite Hsid2, Hcfg2. simpl. by rewrite app_nil_r. }
  split_and!; try done.
  - unfold plain. rewrite in_map_iff. intros (x & Hx & Hin).
    inversion Hx; subst. rewrite in_app_iff in Hin.
    destruct Hin as [Hin|Hin]; [|done].
    simpl in Hin. intuition discriminate.
  - unfold sendMessage. rewrite Hargs, Hcfg.
    destruct (isProcessing m1) eqn:Hbusy.
    + split; [done|].
      destruct (currentProcess m) eqn:Hchild.
      * assert (Hidle : isProcessing m1 = false); [|congruence].
        unfold m1, restart.
        pose proof (stop_idle wait m ltac:(by rewrite Hchild)) as Hstop.
        by destruct (stop JSON_parse wait m).
      * split; [done|].
        unfold m1, restart in Hbusy.
        by rewrite (stop_without_child wait m Hchild) in Hbusy.
    + eexists. split; [done|].
      intros command argv cwd Hin.
      destruct (spawn_stdin _ _ _); simpl in Hin; intuition discriminate.
  - unfold sendMessage. rewrite Hargs2, Hcfg2.
    destruct (isProcessing m2) eqn:Hbusy; [done|].
    eexists. split; [done|].
    intros command argv cwd Hin.
    destruct (spawn_stdin _ _ _); simpl in Hin; intuition discriminate.
Qed.

End Reset.

(** ** The mapping from records to events *)

Section Mapping.
Import JsString ClaudeManager.
Variable JSON_parse : string -> option value.

Lemma get_normal (v : value) (k : string) :
  is_nullish v = false -> get v k = Normal (field v k).
Proof. by destruct v. Qed.

Lemma get_nullish (v : value) (k : string) :
  is_nullish v = true -> exists err, get v k = Throw err.
Proof. destruct v; try done; by eexists. Qed.

(** A loop over blocks none of which is [null] runs to its end: one
    block after the other adds its events. *)
Lemma emitBlocks_flat_map (blocks : list value) :
  Forall (fun b => is_nullish b = false) blocks ->
  emitBlocks contentBlockToEvent blocks = flat_map blockEvents blocks.
Proof.
  induction 1 as [|b rest Hb _ IH]; simpl; [done|].
  unfold blockEvents at 1.
  destruct (contentBlockToEvent b) as [[event|]|err] eqn:Hev; simpl.
  - by rewrite IH.
  - done.
  - unfold contentBlockToEvent in Hev. rewrite (get_normal b "type" Hb) in Hev.
    simpl in Hev.
    destruct (is_str _ "thinking"); [by rewrite (get_normal b _ Hb) in Hev|].
    destruct (is_str _ "text"); [by rewrite (get_normal b _ Hb) in Hev|].
    destruct (is_str _ "tool_use"); [by rewrite !(get_normal b _ Hb) in Hev|].
    done.
Qed.

(** An assistant message is unpacked block by block, in block order. *)
Lemma assistant_record_events (data : value) (blocks : list value) :
  field data "type" = VString "assistant" ->
  field (field data "message") "content" = VArray blocks ->
  Forall (fun b => is_nullish b = false) blocks ->
  recordEvents data = flat_map blockEvents blocks.
Proof.
  intros Hty Hcontent Hblocks. unfold recordEvents.
  destruct (is_nullish data) eqn:Hdata; [by destruct data|].
  rewrite !(get_normal data _ Hdata). simpl.
  destruct (is_nullish (field data "message")) eqn:Hmsg.
  { by destruct (field data "message"). }
  assert (Hget : get_opt (field data "message") "content" = Normal (VArray blocks)).
  { unfold get_opt. destruct (field data "message") eqn:Hm; try done;
      by rewrite <- Hcontent. }
  rewrite Hget, Hty. simpl. by apply emitBlocks_flat_map.
Qed.

(** What a block gives, kind by kind. *)
Lemma blockEvents_by_kind (block : value) :
  is_nullish block = false ->
  (field block "type" = VString "thinking" ->
   blockEvents block
   = [ThinkingEvent (or (field block "thinking") (VString ""))])
  /\ (field block "type" = VString "text" ->
      blockEvents block = [MessageEvent (or (field block "text") (VString ""))])
  /\ (field block "type" = VString "tool_use" ->
      blockEvents block
      = [ToolUseEvent (or (field block "name") (VString ""))
                      (or (field block "input") (VObject []))])
  /\ (field block "type" = VString "tool_use" ->
      truthy (field block "name") = true -> truthy (field block "input") = true ->
      blockEvents block = [ToolUseEvent (field block "name") (field block "input")])
  /\ (field block "type" = VString "tool_use" ->
      truthy (field block "name") = false -> truthy (field block "input") = false ->
      blockEvents block = [ToolUseEvent (VString "") (VObject [])])
  /\ (is_str (field block "type") "thinking" = false ->
      is_str (field block "type") "text" = false ->
      is_str (field block "type") "tool_use" = false ->
      blockEvents block = []).
Proof.
  intros Hb. unfold blockEvents, contentBlockToEvent.
  rewrite !(get_normal block _ Hb). simpl.
  split_and!.
  - by intros ->.
  - by intros ->.
  - by intros ->.
  - intros -> Hname Hinput. simpl. unfold or. by rewrite Hname, Hinput.
  - intros -> Hname Hinput. simpl. unfold or. by rewrite Hname, Hinput.
  - by intros -> -> ->.
Qed.

End Mapping.

Section Unmapped.
Import JsString.
Variable JSON_parse : string -> option value.

Lemma OutputParser_jsonToEvent_unmapped (data : value) :
  explicitlyMapped data = false ->
  is_nullish data = false ->
  OutputParser.jsonToEvent data = Normal None.
Proof.
  unfold explicitlyMapped. simpl. rewrite !orb_false_iff.
  intros ((Herror & Hthinking & Htool_use & Htool_result & Hmessage & Hcontent
           & Htext & Hcomplete & Hcompleted & _) & _) Hdata.
  unfold OutputParser.jsonToEvent. rewrite (get_normal data "type" Hdata). simpl.
  by rewrite Hthinking, Htool_use, Htool_result, Hmessage, Htext, Herror,
    Hcomplete, Hcompleted.
Qed.

Lemma get_opt_field (v : value) (k : string) : get_opt v k = Normal (field v k).
Proof. by destruct v. Qed.

Lemma ClaudeManager_recordEvents_unmapped (data : value) :
  explicitlyMapped data = false ->
  ClaudeManager.fieldMarked data = false ->
  ClaudeManager.recordEvents data = [].
Proof.
  unfold explicitlyMapped, ClaudeManager.fieldMarked. simpl.
  rewrite !orb_false_iff.
  intros ((Herror & Hthinking & Htool_use & Htool_result & Hmessage & Hcontent
           & Htext & Hcomplete & Hcompleted & _) & Hblocks)
         ((((Hf1 & Hf2) & Hf3) & Hf4) & Hf5).
  unfold ClaudeManager.recordEvents.
  destruct (is_nullish data) eqn:Hdata; [by destruct data|].
  rewrite !(get_normal data _ Hdata). simpl. rewrite get_opt_field. simpl.
  assert (Hbranch :
            is_str (field data "type") "assistant"
              && truthy (field (field data "message") "content") = false
            /\ is_str (field data "type") "user"
                 && truthy (field (field data "message") "content") = false).
  { destruct (is_str (field data "type") "assistant"),
             (is_str (field data "type") "user"),
             (truthy (field (field data "message") "content")); by simpl in *. }
  destruct Hbranch as [-> ->].
  unfold ClaudeManager.jsonToEvent. rewrite !(get_normal data _ Hdata). simpl.
  by rewrite Hthinking, Htool_use, Htool_result, Hmessage, Hcontent, Herror,
    Hf1, Hf2, Hf3, Hf4, Hf5.
Qed.

(** C2, amended. A line that parses to a record that is of no mapped kind
    (its [type] is none of those that the decoders map, and it is not an
    assistant or user message with content) gives no event in the
    buffering decoder; in the manager's decoder it gives no event when, in
    addition, the record has none of the fields [thinking], [tool],
    [result], [text] and [content] with a truthy value. *)
Theorem unmapped_unmarked_records_dropped
    (line : string) (data current : value) :
  JSON_parse line = Some data ->
  explicitlyMapped data = false ->
  OutputParser.decodeLine JSON_parse line = []
  /\ (ClaudeManager.fieldMarked data = false ->
      (ClaudeManager.processLine JSON_parse current line).2 = []).
Proof.
  intros Hparse Hkind. split.
  - unfold OutputParser.decodeLine. rewrite Hparse.
    destruct (String.eqb (trim line) ""); [done|].
    destruct (is_nullish data) eqn:Hdata.
    + destruct (get_nullish data "type" Hdata) as [err Herr].
      unfold OutputParser.jsonToEvent. by rewrite Herr.
    + by rewrite OutputParser_jsonToEvent_unmapped.
  - intros Hfields.
    unfold ClaudeManager.processLine, ClaudeManager.decodeLine. rewrite Hparse.
    destruct (String.eqb (trim line) ""); [done|].
    simpl. by apply ClaudeManager_recordEvents_unmapped.
Qed.

End Unmapped.

(** ** The event broadcaster *)

Section Broadcast.
Import SSEManager.
Context {Response : Type} `{ResponseLike Response}.
Variable JSON_stringify : ClaudeEvent -> string.

Lemma removeClient_delete (clientId : string) (clients : gmap string Response) :
  removeClient clientId clients = Normal (delete clientId clients).
Proof.
  unfold removeClient. destruct (clients !! clientId) as [res|] eqn:Hres.
  - by destruct (end_ res).
  - by rewrite delete_id.
Qed.

(** The callback of [broadcast] never throws; it touches the entry of its
    client only. *)
Lemma broadcastTo_lookup (event : ClaudeEvent) (clientId : string)
    (clients : gmap string Response) :
  exists clients',
    broadcastTo JSON_stringify event clientId clients = Normal clients'
    /\ clients' !! clientId = clients !! clientId ≫= delivered JSON_stringify event
    /\ forall k, k <> clientId -> clients' !! k = clients !! k.
Proof.
  unfold broadcastTo, delivered.
  destruct (clients !! clientId) as [res|] eqn:Hres; simpl.
  - destruct (sendEvent JSON_stringify res event) as [res'|err]; simpl.
    + eexists. split; [done|]. split.
      * by rewrite lookup_insert_eq.
      * intros k Hk. by rewrite lookup_insert_ne.
    + rewrite removeClient_delete. eexists. split; [done|]. split.
      * by rewrite lookup_delete_eq.
      * intros k Hk. by rewrite lookup_delete_ne.
  - eexists. by split_and!.
Qed.

Lemma forEach_broadcastTo (event : ClaudeEvent) (ids : list string)
    (clients : gmap string Response) :
  NoDup ids ->
  exists clients',
    forEach (broadcastTo JSON_stringify event) ids clients = Normal clients'
    /\ (forall k, k ∈ ids ->
         clients' !! k = clients !! k ≫= delivered JSON_stringify event)
    /\ (forall k, k ∉ ids -> clients' !! k = clients !! k).
Proof.
  intros Hnodup. revert clients.
  induction Hnodup as [|clientId rest Hnotin _ IH]; intros clients.
  - exists clients. split; [done|]. split; [|done].
    intros k Hk. by apply elem_of_nil in Hk.
  - destruct (broadcastTo_lookup event clientId clients) as (m1 & Hm1 & Hid & Hother).
    destruct (IH m1) as (m2 & Hm2 & Hin & Hout).
    exists m2. split; [simpl; by rewrite Hm1|]. split.
    + intros k Hk. apply elem_of_cons in Hk as [->|Hk].
      * by rewrite (Hout _ Hnotin).
      * rewrite (Hin _ Hk). rewrite Hother; [done|]. by intros ->.
    + intros k Hk. apply not_elem_of_cons in Hk as [Hne Hk].
      by rewrite (Hout _ Hk), (Hother _ Hne).
Qed.

(** [broadcast] completes, and leaves of every subscriber what the push
    to it leaves. *)
Lemma broadcast_omap (event : ClaudeEvent) (clients : gmap string Response) :
  broadcast JSON_stringify event clients
  = Normal (omap (delivered JSON_stringify event) clients).
Proof.
  unfold broadcast.
  destruct (forEach_broadcastTo event (map_to_list clients).*1 clients
              (NoDup_fst_map_to_list clients)) as (m' & -> & Hin & Hout).
  f_equal. apply map_eq. intros k. rewrite lookup_omap.
  destruct (decide (k ∈ (map_to_list clients).*1)) as [Hk|Hk].
  - by apply Hin.
  - rewrite (Hout _ Hk).
    destruct (clients !! k) as [res|] eqn:Hres; [|done].
    exfalso. apply Hk. apply list_elem_of_fmap. exists (k, res).
    split; [done|]. by apply elem_of_map_to_list.
Qed.

(** C8. [broadcast] never raises. Every registered subscriber whose push
    succeeds has received the event (its response is the one after the two
    writes of the frame), every subscriber whose push fails is removed, and
    nobody is added. With three subscribers of which the second is
    disconnected, the two live ones receive the event and the dead one is
    removed. *)
Theorem broadcast_delivers_and_prunes
    (event : ClaudeEvent) (clients : gmap string Response) :
  exists after : gmap string Response,
    broadcast JSON_stringify event clients = Normal after
    /\ (forall id res res',
          clients !! id = Some res ->
          sendEvent JSON_stringify res event = Normal res' ->
          after !! id = Some res')
    /\ (forall id res err,
          clients !! id = Some res ->
          sendEvent JSON_stringify res event = Throw err ->
          after !! id = None)
    /\ (forall id, clients !! id = None -> after !! id = None)
    /\ (forall (a b c : string) (ra rb rc ra' rc' : Response) (err : string),
          a <> b -> a <> c -> b <> c ->
          clients = <[a := ra]> (<[b := rb]> (<[c := rc]> ∅)) ->
          sendEvent JSON_stringify ra event = Normal ra' ->
          sendEvent JSON_stringify rb event = Throw err ->
          sendEvent JSON_stringify rc event = Normal rc' ->
          after = <[a := ra']> (<[c := rc']> ∅)).
Proof.
  exists (omap (delivered JSON_stringify event) clients).
  split; [apply broadcast_omap|].
  assert (Hok : forall id res res',
             clients !! id = Some res ->
             sendEvent JSON_stringify res event = Normal res' ->
             omap (delivered JSON_stringify event) clients !! id = Some res').
  { intros id res res' Hid Hsend. rewrite lookup_omap, Hid. simpl.
    unfold delivered. by rewrite Hsend. }
  assert (Hfail : forall id res err,
             clients !! id = Some res ->
             sendEvent JSON_stringify res event = Throw err ->
             omap (delivered JSON_stringify event) clients !! id = None).
  { intros id res err Hid Hsend. rewrite lookup_omap, Hid. simpl.
    unfold delivered. by rewrite Hsend. }
  assert (Hnone : forall id, clients !! id = None ->
             omap (delivered JSON_stringify event) clients !! id = None).
  { intros id Hid. by rewrite lookup_omap, Hid. }
  split_and!; try done.
  intros a b c ra rb rc ra' rc' err Hab Hac Hbc Hclients Ha Hb Hc.
  apply map_eq. intros k.
  destruct (decide (k = a)) as [->|Hka].
  { rewrite lookup_insert_eq. apply (Hok a ra); [|done].
    by rewrite Hclients, lookup_insert_eq. }
  rewrite (lookup_insert_ne _ a k) by done.
  destruct (decide (k = c)) as [->|Hkc].
  { rewrite lookup_insert_eq. apply (Hok c rc); [|done].
    rewrite Hclients, lookup_insert_ne, lookup_insert_ne by done.
    by rewrite lookup_insert_eq. }
  rewrite (lookup_insert_ne _ c k), lookup_empty by done.
  destruct (decide (k = b)) as [->|Hkb].
  { apply (Hfail b rb err); [|done].
    rewrite Hclients, lookup_insert_ne by done. by rewrite lookup_insert_eq. }
  apply Hnone. rewrite Hclients.
  rewrite !lookup_insert_ne by done. apply lookup_empty.
Qed.

End Broadcast.

(** * The classes on concrete streams *)

Lemma sendMessage_busy_rejected_witness :
  ClaudeManager.isBusy Scenario.busy = true
  /\ ClaudeManager.sendMessage Scenario.spawn_stdin 3000 "again" Scenario.busy
     = (Throw ClaudeManager.busyError, Scenario.busy, []).
Proof.
  split; [reflexivity|].
  apply (sendMessage_busy_rejected Scenario.spawn_stdin 3000 "again" Scenario.busy).
  reflexivity.
Defined.

(** C1. The manager's own decoder splits every chunk by itself and keeps
    no unfinished line: a record that arrives in two chunks is tried
    fragment by fragment, both fragments fail to parse, and its event is
    lost, where the same text in one chunk gives the event. The buffering
    decoder of [OutputParser] gives the event either way. *)
Theorem ClaudeManager_parseJsonStream_loses_split_record :
  Json.text "{'type':'message',"  +:+ Json.text "'content':'hi'}~"
  = Json.text "{'type':'message','content':'hi'}~"
  /\ (ClaudeManager.parseJsonStream Json.parse
        (Json.text "{'type':'message','content':'hi'}~") Scenario.busy).2
     = [MessageEvent (VString "hi")]
  /\ (ClaudeManager.handleAll Json.parse
        [ClaudeManager.StdoutData (Json.text "{'type':'message','content':'hi'}~")]
        Scenario.busy).2
     = [ClaudeManager.Emit "event" (MessageEvent (VString "hi"))]
  /\ (ClaudeManager.handleAll Json.parse
        [ClaudeManager.StdoutData (Json.text "{'type':'message',");
         ClaudeManager.StdoutData (Json.text "'content':'hi'}~")]
        Scenario.busy).2
     = []
  /\ (OutputParser.feed_all (OutputParser.parseJsonStream Json.parse)
        (OutputParser.create true)
        [Json.text "{'type':'message',"; Json.text "'content':'hi'}~"]).1
     = [MessageEvent (VString "hi")].
Proof. split_and!; by vm_compute. Qed.

(** C2 as stated fails: the record of a line of type [system] with a
    [content] field is of no mapped kind, and the manager's decoder emits a
    [raw_output] event for it. *)
Lemma unmapped_record_yields_raw_output :
  Json.parse (Json.text "{'type':'system','content':'hello'}")
  = Some (VObject [("type", VString "system"); ("content", VString "hello")])
  /\ explicitlyMapped
       (VObject [("type", VString "system"); ("content", VString "hello")])
     = false
  /\ (ClaudeManager.processLine Json.parse VNull
        (Json.text "{'type':'system','content':'hello'}")).2
     = [RawOutputEvent (VString "hello") false].
Proof. split_and!; by vm_compute. Qed.

Lemma unmapped_unmarked_records_dropped_witness :
  Json.parse (Json.text "{'type':'system','subtype':'init'}")
  = Some (VObject [("type", VString "system"); ("subtype", VString "init")])
  /\ explicitlyMapped
       (VObject [("type", VString "system"); ("subtype", VString "init")])
     = false
  /\ OutputParser.decodeLine Json.parse
       (Json.text "{'type':'system','subtype':'init'}") = []
  /\ (ClaudeManager.fieldMarked
        (VObject [("type", VString "system"); ("subtype", VString "init")])
      = false ->
      (ClaudeManager.processLine Json.parse VNull
         (Json.text "{'type':'system','subtype':'init'}")).2 = []).
Proof.
  split; [by vm_compute|]. split; [by vm_compute|].
  apply (unmapped_unmarked_records_dropped Json.parse
           (Json.text "{'type':'system','subtype':'init'}")
           (VObject [("type", VString "system"); ("subtype", VString "init")])
           VNull).
  - by vm_compute.
  - by vm_compute.
Defined.

(** C5 as stated fails. A [null] among the content blocks ends the loop
    over the blocks of the line, so that the blocks after it give no
    event: of three blocks, the first and the last of which are texts, only
    the first gives its event. And the name and the input of a [tool_use]
    block are not always handed on as they are: where the block has none,
    or a falsy one, the event carries the default in its place. *)
Lemma null_block_ends_the_unpacking :
  Json.parse
    (Json.text "{'type':'assistant','message':{'content':[{'type':'text','text':'a'},null,{'type':'text','text':'b'}]}}")
  = Some (VObject
            [("type", VString "assistant");
             ("message",
              VObject
                [("content",
                  VArray [VObject [("type", VString "text"); ("text", VString "a")];
                          VNull;
                          VObject [("type", VString "text"); ("text", VString "b")]])])])
  /\ (ClaudeManager.handleAll Json.parse
        [ClaudeManager.StdoutData
           (Json.text "{'type':'assistant','message':{'content':[{'type':'text','text':'a'},null,{'type':'text','text':'b'}]}}~")]
        Scenario.busy).2
     = [ClaudeManager.Emit "event" (MessageEvent (VString "a"))]
  /\ (ClaudeManager.handleAll Json.parse
        [ClaudeManager.StdoutData
           (Json.text "{'type':'assistant','message':{'content':[{'type':'tool_use','name':'Read'}]}}~")]
        Scenario.busy).2
     = [ClaudeManager.Emit "event" (ToolUseEvent (VString "Read") (VObject []))]
  /\ (ClaudeManager.handleAll Json.parse
        [ClaudeManager.StdoutData
           (Json.text "{'type':'assistant','message':{'content':[{'type':'tool_use','name':null,'input':false}]}}~")]
        Scenario.busy).2
     = [ClaudeManager.Emit "event" (ToolUseEvent (VString "") (VObject []))].
Proof. split_and!; by vm_compute. Qed.

(** C5. A decoded record that is an assistant message with an array of
    content blocks none of which is [null] gives the events of its blocks
    in block order; a [thinking] block gives a [thinking] event, a [text]
    block a [message] event, a [tool_use] block a [tool_use] event with
    the block's name and input as they are when they are truthy, and with
    the empty string and the empty object in the place of a name and an
    input that are absent or falsy, and a block of another kind nothing.
    The line of the scenario gives [thinking] with content x, then
    [message] with content y. *)
Theorem assistant_blocks_unpacked_in_order :
  (forall (JSON_parse : string -> option value) (line : string)
          (data current : value) (blocks : list value),
      ClaudeManager.decodeLine JSON_parse line = Some data ->
      field data "type" = VString "assistant" ->
      field (field data "message") "content" = VArray blocks ->
      Forall (fun b => is_nullish b = false) blocks ->
      (ClaudeManager.processLine JSON_parse current line).2
      = flat_map ClaudeManager.blockEvents blocks)
  /\ (forall block : value,
      is_nullish block = false ->
      (field block "type" = VString "thinking" ->
       ClaudeManager.blockEvents block
       = [ThinkingEvent (or (field block "thinking") (VString ""))])
      /\ (field block "type" = VString "text" ->
          ClaudeManager.blockEvents block
          = [MessageEvent (or (field block "text") (VString ""))])
      /\ (field block "type" = VString "tool_use" ->
          ClaudeManager.blockEvents block
          = [ToolUseEvent (or (field block "name") (VString ""))
                          (or (field block "input") (VObject []))])
      /\ (field block "type" = VString "tool_use" ->
          truthy (field block "name") = true ->
          truthy (field block "input") = true ->
          ClaudeManager.blockEvents block
          = [ToolUseEvent (field block "name") (field block "input")])
      /\ (field block "type" = VString "tool_use" ->
          truthy (field block "name") = false ->
          truthy (field block "input") = false ->
          ClaudeManager.blockEvents block
          = [ToolUseEvent (VString "") (VObject [])])
      /\ (is_str (field block "type") "thinking" = false ->
          is_str (field block "type") "text" = false ->
          is_str (field block "type") "tool_use" = false ->
          ClaudeManager.blockEvents block = []))
  /\ (ClaudeManager.handleAll Json.parse
        [ClaudeManager.StdoutData
           (Json.text "{'type':'assistant','message':{'content':[{'type':'thinking','thinking':'x'},{'type':'text','text':'y'}]}}~")]
        Scenario.busy).2
     = [ClaudeManager.Emit "event" (ThinkingEvent (VString "x"));
        ClaudeManager.Emit "event" (MessageEvent (VString "y"))].
Proof.
  split_and!.
  - intros JSON_parse line data current blocks Hline Hty Hcontent Hblocks.
    unfold ClaudeManager.processLine. rewrite Hline. simpl.
    by apply assistant_record_events.
  - apply blockEvents_by_kind.
  - by vm_compute.
Qed.

Lemma assistant_blocks_unpacked_in_order_witness :
  (ClaudeManager.processLine Json.parse VNull
     (Json.text "{'type':'assistant','message':{'content':[{'type':'tool_use','name':'Read','input':{'path':'a.ts'}},{'type':'image'},{'type':'text','text':'y'}]}}")).2
  = [ToolUseEvent (VString "Read") (VObject [("path", VString "a.ts")]);
     MessageEvent (VString "y")].
Proof.
  rewrite (proj1 assistant_blocks_unpacked_in_order Json.parse _
             (VObject
                [("type", VString "assistant");
                 ("message",
                  VObject
                    [("content",
                      VArray
                        [VObject [("type", VString "tool_use");
                                  ("name", VString "Read");
                                  ("input", VObject [("path", VString "a.ts")])];
                         VObject [("type", VString "image")];
                         VObject [("type", VString "text");
                                  ("text", VString "y")]])])])
             VNull
             [VObject [("type", VString "tool_use"); ("name", VString "Read");
                       ("input", VObject [("path", VString "a.ts")])];
              VObject [("type", VString "image")];
              VObject [("type", VString "text"); ("text", VString "y")]]).
  - by vm_compute.
  - by vm_compute.
  - by vm_compute.
  - by vm_compute.
  - repeat constructor.
Defined.

(** C6 as stated fails. The manager takes the session id of a record from
    its field [session_id] or else from its field [sessionId]: a later
    record that carries no [session_id] but a [sessionId] replaces the
    stored token, and the next message continues that other session. *)
Lemma sessionId_field_replaces_token :
  ClaudeManager.decodedRecords Json.parse
    [ClaudeManager.StdoutData
       (Json.text "{'type':'system','session_id':'abc'}~{'type':'result','sessionId':'other'}~");
     ClaudeManager.Exit (Some 0%Z) None]
  = [VObject [("type", VString "system"); ("session_id", VString "abc")];
     VObject [("type", VString "result"); ("sessionId", VString "other")]]
  /\ get (VObject [("type", VString "result"); ("sessionId", VString "other")])
         "session_id"
     = Normal VUndefined
  /\ ClaudeManager.getSessionId
       (ClaudeManager.handleAll Json.parse
          [ClaudeManager.StdoutData
             (Json.text "{'type':'system','session_id':'abc'}~")]
          Scenario.busy).1
     = VString "abc"
  /\ ClaudeManager.getSessionId
       (ClaudeManager.handleAll Json.parse
          [ClaudeManager.StdoutData
             (Json.text "{'type':'system','session_id':'abc'}~{'type':'result','sessionId':'other'}~");
           ClaudeManager.Exit (Some 0%Z) None]
          Scenario.busy).1
     = VString "other"
  /\ (ClaudeManager.sendMessage Scenario.spawn_stdin 3000 "next"
        (ClaudeManager.handleAll Json.parse
           [ClaudeManager.StdoutData
              (Json.text "{'type':'system','session_id':'abc'}~{'type':'result','sessionId':'other'}~");
            ClaudeManager.Exit (Some 0%Z) None]
           Scenario.busy).1).2
     = [ClaudeManager.Spawn "claude"
          (map VString ClaudeManager.printModeArgs
           ++ [VString "--continue"; VString "other"])
          "/workspace";
        ClaudeManager.StdinWrite "next";
        ClaudeManager.StdinEnd].
Proof. split_and!; by vm_compute. Qed.

Lemma continuation_token_replayed_witness :
  ClaudeManager.getSessionId
    (ClaudeManager.handleAll Json.parse
       [ClaudeManager.StdoutData
          (Json.text "{'type':'system','session_id':'abc'}~{'type':'assistant','message':{'content':[{'type':'text','text':'hi'}]}}~");
        ClaudeManager.Exit (Some 0%Z) None]
       Scenario.busy).1
  = VString "abc"
  /\ exists m2 effs,
       ClaudeManager.sendMessage Scenario.spawn_stdin 3000 "next"
         (ClaudeManager.handleAll Json.parse
            [ClaudeManager.StdoutData
               (Json.text "{'type':'system','session_id':'abc'}~{'type':'assistant','message':{'content':[{'type':'text','text':'hi'}]}}~");
             ClaudeManager.Exit (Some 0%Z) None]
            Scenario.busy).1
       = (Normal tt, m2,
          ClaudeManager.Spawn "claude"
            (map VString ClaudeManager.printModeArgs
             ++ [VString "--continue"; VString "abc"])
            "/workspace" :: effs).
Proof.
  destruct (continuation_token_replayed Json.parse Scenario.spawn_stdin
              Scenario.busy
              [ClaudeManager.StdoutData
                 (Json.text "{'type':'system','session_id':'abc'}~{'type':'assistant','message':{'content':[{'type':'text','text':'hi'}]}}~");
               ClaudeManager.Exit (Some 0%Z) None]
              []
              [VObject
                 [("type", VString "assistant");
                  ("message",
                   VObject
                     [("content",
                       VArray [VObject [("type", VString "text");
                                        ("text", VString "hi")]])])]]
              (VObject [("type", VString "system"); ("session_id", VString "abc")])
              "abc" 3000 "next") as (Hsid & _ & Hnext).
  - by vm_compute.
  - by vm_compute.
  - discriminate.
  - repeat constructor.
  - split; [exact Hsid|].
    destruct (Hnext eq_refl) as (m2 & effs & Hsend & _).
    exists m2, effs. exact Hsend.
Defined.

Lemma broadcast_delivers_and_prunes_witness :
  SSEManager.broadcast Sink.stringify
    (StatusEvent "reset" (VString "Session has been reset"))
    (<["a" := Sink.live]> (<["b" := Sink.dead]> (<["c" := Sink.live]> ∅)))
  = Normal
      (<["a" := {| Sink.connected := true; Sink.headers := [];
                   Sink.received := [Json.text "event: status~";
                                     Json.text "data: {'type':'status'}~~"];
                   Sink.ended := false |}]>
         (<["c" := {| Sink.connected := true; Sink.headers := [];
                      Sink.received := [Json.text "event: status~";
                                        Json.text "data: {'type':'status'}~~"];
                      Sink.ended := false |}]> ∅)).
Proof.
  destruct (broadcast_delivers_and_prunes Sink.stringify
              (StatusEvent "reset" (VString "Session has been reset"))
              (<["a" := Sink.live]> (<["b" := Sink.dead]> (<["c" := Sink.live]> ∅))))
    as (after & Hbroadcast & _ & _ & _ & Hthree).
  rewrite Hbroadcast. f_equal.
  apply (Hthree "a" "b" "c" Sink.live Sink.dead Sink.live _ _ "write after end");
    try discriminate; reflexivity.
Defined.

(** C7 as stated fails. The session id is taken from every record that
    the handler of standard output decodes, also after a restart: once the
    child of the next message has reported a session id, the message after
    it continues that conversation; output of the stopped child that is
    handled after [restart()] has resolved puts its session id back, and
    the very next message continues the old conversation; and arguments
    that the configuration holds are handed on as they are, a
    [--continue] among them included. *)
Lemma session_id_returns_after_restart :
  ClaudeManager.getSessionId
    (ClaudeManager.restart Json.parse (ClaudeManager.TimedOut [])
       (ClaudeManager.set_sessionId (VString "abc") Scenario.busy)).1
  = VNull
  /\ (ManagerRun.run Json.parse Scenario.spawn_stdin
        [ManagerRun.Send 3000 "next";
         ManagerRun.Child
           (ClaudeManager.StdoutData
              (Json.text "{'type':'system','session_id':'new'}~"));
         ManagerRun.Child (ClaudeManager.Exit (Some 0%Z) None);
         ManagerRun.Send 4000 "again"]
        (ClaudeManager.restart Json.parse (ClaudeManager.TimedOut [])
           (ClaudeManager.set_sessionId (VString "abc") Scenario.busy)).1).2
     = [ClaudeManager.Spawn "claude" (map VString ClaudeManager.printModeArgs)
          "/workspace";
        ClaudeManager.StdinWrite "next";
        ClaudeManager.StdinEnd;
        ClaudeManager.Emit "event" (CompletedEvent VUndefined);
        ClaudeManager.Spawn "claude"
          (map VString ClaudeManager.printModeArgs
           ++ [VString "--continue"; VString "new"])
          "/workspace";
        ClaudeManager.StdinWrite "again";
        ClaudeManager.StdinEnd]
  /\ (ManagerRun.run Json.parse Scenario.spawn_stdin
        [ManagerRun.Child
           (ClaudeManager.StdoutData
              (Json.text "{'type':'result','session_id':'abc'}~"));
         ManagerRun.Send 3000 "next"]
        (ClaudeManager.restart Json.parse (ClaudeManager.TimedOut [])
           (ClaudeManager.set_sessionId (VString "abc") Scenario.busy)).1).2
     = [ClaudeManager.Spawn "claude"
          (map VString ClaudeManager.printModeArgs
           ++ [VString "--continue"; VString "abc"])
          "/workspace";
        ClaudeManager.StdinWrite "next";
        ClaudeManager.StdinEnd]
  /\ (ClaudeManager.sendMessage Scenario.spawn_stdin 3000 "next"
        (ClaudeManager.restart Json.parse (ClaudeManager.TimedOut [])
           (ClaudeManager.create
              {| ClaudeManager.claudePath := "claude";
                 ClaudeManager.workingDirectory := "/workspace";
                 ClaudeManager.args := Some ["--continue"; "xyz"] |})).1).2
     = [ClaudeManager.Spawn "claude"
          (map VString ClaudeManager.printModeArgs
           ++ [VString "--continue"; VString "xyz"])
          "/workspace";
        ClaudeManager.StdinWrite "next";
        ClaudeManager.StdinEnd].
Proof. split_and!; by vm_compute. Qed.

Lemma restart_clears_continuation_witness :
  ClaudeManager.getSessionId
    (ClaudeManager.restart Json.parse
       (ClaudeManager.TimedOut
          [ClaudeManager.StdoutData (Json.text "{'type':'system','session_id':'late'}~")])
       (ClaudeManager.set_sessionId (VString "abc") Scenario.busy)).1
  = VNull
  /\ ClaudeManager.buildArgs
       (ClaudeManager.restart Json.parse
          (ClaudeManager.TimedOut
             [ClaudeManager.StdoutData
                (Json.text "{'type':'system','session_id':'late'}~")])
          (ClaudeManager.set_sessionId (VString "abc") Scenario.busy)).1
     = map VString ClaudeManager.printModeArgs
  /\ ClaudeManager.getSessionId
       (ManagerRun.run Json.parse Scenario.spawn_stdin
          [ManagerRun.Send 3000 "next";
           ManagerRun.Child
             (ClaudeManager.StdoutData
                (Json.text "{'type':'assistant','message':{'content':[{'type':'text','text':'hi'}]}}~"));
           ManagerRun.Child (ClaudeManager.Exit (Some 0%Z) None);
           ManagerRun.Send 4000 "again"]
          (ClaudeManager.restart Json.parse
             (ClaudeManager.TimedOut
                [ClaudeManager.StdoutData
                   (Json.text "{'type':'system','session_id':'late'}~")])
             (ClaudeManager.set_sessionId (VString "abc") Scenario.busy)).1).1
     = VNull
  /\ ClaudeManager.buildArgs
       (ManagerRun.run Json.parse Scenario.spawn_stdin
          [ManagerRun.Send 3000 "next";
           ManagerRun.Child
             (ClaudeManager.StdoutData
                (Json.text "{'type':'assistant','message':{'content':[{'type':'text','text':'hi'}]}}~"));
           ManagerRun.Child (ClaudeManager.Exit (Some 0%Z) None);
           ManagerRun.Send 4000 "again"]
          (ClaudeManager.restart Json.parse
             (ClaudeManager.TimedOut
                [ClaudeManager.StdoutData
                   (Json.text "{'type':'system','session_id':'late'}~")])
             (ClaudeManager.set_sessionId (VString "abc") Scenario.busy)).1).1
     = map VString ClaudeManager.printModeArgs.
Proof.
  destruct (restart_clears_continuation Json.parse Scenario.spawn_stdin
              (ClaudeManager.TimedOut
                 [ClaudeManager.StdoutData
                    (Json.text "{'type':'system','session_id':'late'}~")])
              (ClaudeManager.set_sessionId (VString "abc") Scenario.busy)
              [ManagerRun.Send 3000 "next";
               ManagerRun.Child
                 (ClaudeManager.StdoutData
                    (Json.text "{'type':'assistant','message':{'content':[{'type':'text','text':'hi'}]}}~"));
               ManagerRun.Child (ClaudeManager.Exit (Some 0%Z) None);
               ManagerRun.Send 4000 "again"]
              5000 "more")
    as (Hsid & Hargs & _ & _ & Hsid2 & Hargs2 & _).
  - by vm_compute.
  - split; [exact Hsid|]. split; [exact Hargs|]. split; [exact Hsid2|exact Hargs2].
Defined.

Lemma OutputParser_chunk_boundary_invariance_witness :
  JsString.line_free (OutputParser.jsonBuffer (OutputParser.create true))
  /\ OutputParser.feed_all (OutputParser.parseJsonStream Json.parse)
       (OutputParser.create true)
       [Json.text "{'type':'thin"; Json.text "king','content':'x'}~{'type':";
        Json.text "'text','text':'y'}~{'ty"]
     = ([ThinkingEvent (VString "x"); MessageEvent (VString "y")],
        {| OutputParser.buffer := ""; OutputParser.jsonBuffer := Json.text "{'ty";
           OutputParser.isJsonMode := true |}).
Proof.
  split; [reflexivity|].
  rewrite (OutputParser_chunk_boundary_invariance Json.parse
             (OutputParser.create true)
             [Json.text "{'type':'thin"; Json.text "king','content':'x'}~{'type':";
              Json.text "'text','text':'y'}~{'ty"]).
  - by vm_compute.
  - reflexivity.
Defined.

Lemma exit_handler_emits_one_event_witness :
  (filter (fun e => ClaudeManager.is_completed e = true)
     (ClaudeManager.emittedEvents
        (ClaudeManager.handleAll Json.parse
           ([ClaudeManager.StdoutData
               (Json.text "{'type':'assistant','message':{'content':[{'type':'text','text':'done'}]}}~");
             ClaudeManager.StderrData "warning"]
            ++ [ClaudeManager.Exit (Some 0%Z) None])
           Scenario.busy).2)
   = [CompletedEvent VUndefined]
   /\ ClaudeManager.isBusy
        (ClaudeManager.handleAll Json.parse
           ([ClaudeManager.StdoutData
               (Json.text "{'type':'assistant','message':{'content':[{'type':'text','text':'done'}]}}~");
             ClaudeManager.StderrData "warning"]
            ++ [ClaudeManager.Exit (Some 0%Z) None])
           Scenario.busy).1
      = false)
  /\ exists digits : string,
       ClaudeManager.emittedEvents
         (ClaudeManager.handleAll Json.parse
            ([ClaudeManager.StdoutData
                (Json.text "{'type':'assistant','message':{'content':[{'type':'text','text':'part'}]}}~");
              ClaudeManager.StderrData "killed"]
             ++ [ClaudeManager.Exit (Some 137%Z) None])
            Scenario.busy).2
       = [MessageEvent (VString "part");
          ErrorEvent (VString ("Claude exited with code " +:+ digits)) VUndefined]
       /\ Z.of_int <$> NilZero.int_of_string digits = Some 137%Z
       /\ ClaudeManager.isBusy
            (ClaudeManager.handleAll Json.parse
               ([ClaudeManager.StdoutData
                   (Json.text "{'type':'assistant','message':{'content':[{'type':'text','text':'part'}]}}~");
                 ClaudeManager.StderrData "killed"]
                ++ [ClaudeManager.Exit (Some 137%Z) None])
               Scenario.busy).1
          = false.
Proof.
  destruct (exit_handler_emits_one_event Json.parse Scenario.busy None)
    as (_ & _ & _ & _ & _ & _ & Hdone & Hfailed).
  split.
  - destruct (Hdone [ClaudeManager.StdoutData
                       (Json.text "{'type':'assistant','message':{'content':[{'type':'text','text':'done'}]}}~");
                     ClaudeManager.StderrData "warning"] eq_refl)
      as (_ & Hone & Hidle).
    split; [exact Hone|exact Hidle].
  - destruct (Hfailed [ClaudeManager.StdoutData
                         (Json.text "{'type':'assistant','message':{'content':[{'type':'text','text':'part'}]}}~");
                       ClaudeManager.StderrData "killed"] 137%Z eq_refl)
      as (digits & Hevents & Hread & _ & _ & Hidle); [discriminate|].
    exists digits. split; [exact Hevents|]. split; [exact Hread|exact Hidle].
Defined.

(** * Further properties of the classes *)

(** Case analysis along a decoder, on every property read and every test. *)
Ltac split_decoder :=
  repeat match goal with
         | |- context [get ?v ?k] => destruct (get v k); simpl; try done
         | |- context [get_opt ?v ?k] => destruct (get_opt v k); simpl; try done
         | |- context [if ?b then _ else _] => destruct b; simpl; try done
         end.

(** ** The carry-over buffer of the output parser *)

Section LineFeeds.
Import JsString.

Lemma line_free_no_lf (s : string) :
  line_free s <-> ~ In LF (list_ascii_of_string s).
Proof.
  unfold line_free. induction s as [|c r IH]; simpl.
  - split; [tauto|done].
  - destruct (scan r) as [ls tl] eqn:Hr.
    destruct (Ascii.eqb c LF) eqn:Hc.
    + apply Ascii.eqb_eq in Hc. subst c. split; [done|]. intros Hno. tauto.
    + apply Ascii.eqb_neq in Hc. split.
      * intros Hs. destruct ls as [|l ls']; [|done].
        inversion Hs; subst. intros [Heq|Hin]; [by subst|].
        apply IH in Hin; [done|]. done.
      * intros Hno.
        assert (Hr' : (ls, tl) = ([], r)) by (apply IH; tauto).
        by inversion Hr'; subst.
Qed.

Lemma scan_lines_count (s : string) : length (scan s).1 = count_lf s.
Proof.
  induction s as [|c r IH]; simpl; [done|].
  destruct (scan r) as [ls tl]. simpl in IH.
  destruct (Ascii.eqb c LF); simpl; [by rewrite IH|].
  rewrite <- IH. by destruct ls.
Qed.

Lemma list_ascii_app (s t : string) :
  list_ascii_of_string (s +:+ t) = list_ascii_of_string s ++ list_ascii_of_string t.
Proof. induction s as [|c r IH]; [done|]. rewrite append_cons. simpl. by rewrite IH. Qed.

Lemma flat_map_at_most_one {A B : Type} (f : A -> list B) (l : list A) :
  (forall x, (length (f x) <= 1)%nat) -> (length (flat_map f l) <= length l)%nat.
Proof.
  intros Hf. induction l as [|x l IH]; simpl; [lia|].
  rewrite length_app. specialize (Hf x). lia.
Qed.

End LineFeeds.

Section CarryOver.
Import JsString OutputParser.
Variable JSON_parse : string -> option value.
Variable stripAnsi : string -> string.

Lemma decodeLine_at_most_one (line : string) :
  (length (decodeLine JSON_parse line) <= 1)%nat.
Proof.
  unfold decodeLine. destruct (String.eqb _ _); simpl; [lia|].
  destruct (JSON_parse line); simpl; [|lia].
  destruct (jsonToEvent _) as [[e|]|err]; simpl; lia.
Qed.

(** X1. After every call of [parseJsonStream] the carry-over buffer holds no
    line feed, and the call gave at most one event for each line feed of
    the buffer and the chunk together. *)
Theorem jsonBuffer_holds_no_line_feed (p : t) (chunk : string) :
  ~ In LF (list_ascii_of_string (jsonBuffer (parseJsonStream JSON_parse p chunk).2))
  /\ (length (parseJsonStream JSON_parse p chunk).1
      <= count_lf (jsonBuffer p +:+ chunk))%nat.
Proof.
  split.
  - apply line_free_no_lf, parseJsonStream_line_free.
  - rewrite parseJsonStream_scan. simpl. rewrite <- scan_lines_count.
    apply flat_map_at_most_one, decodeLine_at_most_one.
Qed.

(** X2. A chunk without line feed, on a buffer without one, gives no event and
    is kept whole behind the buffer. *)
Theorem unfinished_line_is_held_back (p : t) (chunk : string) :
  ~ In LF (list_ascii_of_string (jsonBuffer p)) ->
  ~ In LF (list_ascii_of_string chunk) ->
  parseJsonStream JSON_parse p chunk
  = ([], {| buffer := buffer p; jsonBuffer := jsonBuffer p +:+ chunk;
            isJsonMode := isJsonMode p |}).
Proof.
  clear stripAnsi. intros Hbuf Hchunk. rewrite parseJsonStream_scan.
  assert (Hfree : line_free (jsonBuffer p +:+ chunk)).
  { apply line_free_no_lf. rewrite list_ascii_app, in_app_iff. tauto. }
  by rewrite Hfree.
Qed.

Lemma parse_isJsonMode (p : t) (rawOutput : string) :
  isJsonMode (parse JSON_parse stripAnsi p rawOutput).2 = isJsonMode p.
Proof.
  unfold parse. destruct (isJsonMode p) eqn:Hmode.
  - rewrite parseJsonStream_scan. simpl. done.
  - unfold parseTextOutput. by destruct (extractLoop _ _ _).
Qed.

(** X3. Whatever a parser was fed, in either mode, [reset()] makes it the
    parser that the constructor builds for its mode. *)
Theorem reset_forgets_what_was_fed (p : t) (chunks : list string) :
  reset (feed_all (parse JSON_parse stripAnsi) p chunks).2 = create (isJsonMode p).
Proof.
  revert p. induction chunks as [|chunk rest IH]; intros p; simpl; [done|].
  pose proof (parse_isJsonMode p chunk) as Hmode.
  destruct (parse JSON_parse stripAnsi p chunk) as [events p1].
  specialize (IH p1). destruct (feed_all _ p1 rest) as [events' p2].
  simpl in *. by rewrite IH, Hmode.
Qed.

End CarryOver.

(** ** Text mode *)

Section TextSearch.
Import JsString OutputParser.

Lemma strip_prefix_sound (p s r : string) :
  strip_prefix p s = Some r -> s = p +:+ r.
Proof.
  revert s. induction p as [|a p IH]; intros s Hs; simpl in Hs.
  - by inversion Hs.
  - destruct s as [|b s]; [done|].
    destruct (Ascii.eqb a b) eqn:Hab; [|done].
    apply Ascii.eqb_eq in Hab. subst b.
    rewrite append_cons. f_equal. by apply IH.
Qed.

Lemma find_sub_sound (needle s before after : string) :
  find_sub needle s = Some (before, after) -> s = before +:+ (needle +:+ after).
Proof.
  revert before. induction s as [|c r IH]; intros before Hs; simpl in Hs.
  - destruct (strip_prefix needle "") as [x|] eqn:Hp; [|done].
    inversion Hs; subst. by apply strip_prefix_sound in Hp.
  - destruct (strip_prefix needle (String c r)) as [x|] eqn:Hp.
    + inversion Hs; subst. by apply strip_prefix_sound in Hp.
    + destruct (find_sub needle r) as [[b a]|] eqn:Hf; [|done].
      inversion Hs; subst. rewrite append_cons. f_equal. by apply IH.
Qed.




Lemma find_sub_occurs (needle s before after : string) (c : ascii) :
  find_sub needle s = Some (before, after) ->
  In c (list_ascii_of_string needle) -> In c (list_ascii_of_string s).
Proof.
  intros Hf Hc. apply find_sub_sound in Hf. subst s.
  rewrite !list_ascii_app, !in_app_iff. tauto.
Qed.

Lemma find_sub_absent (needle s : string) (c : ascii) :
  In c (list_ascii_of_string needle) -> ~ In c (list_ascii_of_string s) ->
  find_sub needle s = None.
Proof.
  intros Hc Hs. destruct (find_sub needle s) as [[b a]|] eqn:Hf; [|done].
  exfalso. apply Hs. by apply (find_sub_occurs needle s b a).
Qed.

End TextSearch.

Section TextMode.
Import JsString OutputParser.
Variable JSON_parse : string -> option value.
Variable stripAnsi : string -> string.


(** X5. A buffer that starts with the assistant prefix and has no [<] after
    it is emitted at once, whole, as a message, and nothing is kept: text
    mode does not wait for the rest of a message. *)
Theorem message_is_emitted_at_once (text : string) :
  ~ In "<"%char (list_ascii_of_string text) ->
  extractNextEvent JSON_parse ("Assistant: " +:+ text)
  = Some (MessageEvent (VString (trim text)), "").
Proof.
  clear stripAnsi. intros Hno.
  assert (Hbuf : ~ In "<"%char (list_ascii_of_string ("Assistant: " +:+ text))).
  { rewrite list_ascii_app, in_app_iff. intros [Hin|Hin]; [|done].
    simpl in Hin. intuition discriminate. }
  assert (Habsent : forall needle s,
             In "<"%char (list_ascii_of_string needle) ->
             ~ In "<"%char (list_ascii_of_string s) -> find_sub needle s = None).
  { intros needle s. apply find_sub_absent. }
  unfold extractNextEvent, match_between, match_tool_use, match_message.
  rewrite (Habsent "<thinking>" _ ltac:(simpl; tauto) Hbuf).
  rewrite (Habsent "<tool_use>" _ ltac:(simpl; tauto) Hbuf).
  rewrite (Habsent "<tool_result>" _ ltac:(simpl; tauto) Hbuf).
  assert (Hprefix : strip_prefix "Assistant: " ("Assistant: " +:+ text) = Some text)
    by reflexivity.
  rewrite Hprefix.
  by rewrite (Habsent (String LF "<") text ltac:(simpl; tauto) Hno).
Qed.

Lemma extractNextEvent_not_raw (buf rest : string) (event : ClaudeEvent) :
  extractNextEvent JSON_parse buf = Some (event, rest) -> is_raw_output event = false.
Proof.
  unfold extractNextEvent. intros Hx.
  destruct (match_between "<thinking>" _ buf) as [[c r]|]; [by inversion Hx|].
  destruct (match_tool_use buf) as [[[n ps] r]|]; [by inversion Hx|].
  destruct (match_between "<tool_result>" _ buf) as [[c r]|]; [by inversion Hx|].
  destruct (match_message buf) as [[c r]|]; [by inversion Hx|done].
Qed.

Lemma extractLoop_not_raw (fuel : nat) (buf : string) :
  filter (fun e => is_raw_output e = true) (extractLoop JSON_parse fuel buf).1 = [].
Proof.
  revert buf. induction fuel as [|fuel IH]; intros buf; simpl; [done|].
  destruct (extractNextEvent JSON_parse buf) as [[e r]|] eqn:Hx; [|done].
  specialize (IH r). destruct (extractLoop JSON_parse fuel r) as [events final].
  simpl in *. rewrite filter_cons_False; [done|].
  by rewrite (extractNextEvent_not_raw _ _ _ Hx).
Qed.

Lemma OutputParser_jsonToEvent_not_raw (data : value) (event : ClaudeEvent) :
  jsonToEvent data = Normal (Some event) -> is_raw_output event = false.
Proof. unfold jsonToEvent. split_decoder; by intros [= <-]. Qed.

Lemma decodeLine_not_raw (line : string) :
  filter (fun e => is_raw_output e = true) (decodeLine JSON_parse line) = [].
Proof.
  unfold decodeLine. destruct (String.eqb _ _); [done|].
  destruct (JSON_parse line) as [data|]; [|done].
  destruct (jsonToEvent data) as [[e|]|err] eqn:Hev; try done.
  rewrite filter_cons_False; [done|].
  by rewrite (OutputParser_jsonToEvent_not_raw _ _ Hev).
Qed.

(** X6. In both modes the result of [parse] holds exactly one [raw_output]
    event, the one for the chunk: neither decoder of the parser gives
    one. *)
Theorem parse_gives_one_raw_output (p : t) (rawOutput : string) :
  filter (fun e => is_raw_output e = true) (parse JSON_parse stripAnsi p rawOutput).1
  = [RawOutputEvent (VString rawOutput) true].
Proof.
  unfold parse. destruct (isJsonMode p).
  - rewrite parseJsonStream_scan. simpl. rewrite filter_app.
    assert (Hnone : forall lines,
               filter (fun e => is_raw_output e = true)
                      (flat_map (decodeLine JSON_parse) lines) = []).
    { induction lines as [|l ls IH]; simpl; [done|].
      by rewrite filter_app, decodeLine_not_raw, IH. }
    by rewrite Hnone.
  - unfold parseTextOutput.
    pose proof (extractLoop_not_raw
                  (String.length (buffer p +:+ stripAnsi rawOutput))
                  (buffer p +:+ stripAnsi rawOutput)) as Hnone.
    destruct (extractLoop _ _ _) as [events final]. simpl in *.
    by rewrite filter_app, Hnone.
Qed.

End TextMode.

(** ** The decoder of the manager on whole lines *)

Section AlignedChunks.
Import JsString ClaudeManager.
Variable JSON_parse : string -> option value.

Lemma scan_ends_with_lf (body : string) :
  (scan (body +:+ String LF "")).2 = "" /\ (scan (body +:+ String LF "")).1 <> [].
Proof.
  induction body as [|c r [IHtail IHlines]].
  - rewrite append_nil_l. by vm_compute.
  - rewrite append_cons. simpl.
    destruct (scan (r +:+ String LF "")) as [ls tl]. simpl in *. subst tl.
    destruct (Ascii.eqb c LF); [done|]. by destruct ls.
Qed.

Lemma processLines_app (current : value) (lines1 lines2 : list string) :
  processLines JSON_parse current (lines1 ++ lines2)
  = let '(current1, events1) := processLines JSON_parse current lines1 in
    let '(current2, events2) := processLines JSON_parse current1 lines2 in
    (current2, events1 ++ events2).
Proof.
  revert current. induction lines1 as [|line rest IH]; intros current; simpl.
  - by destruct (processLines JSON_parse current lines2).
  - destruct (processLine JSON_parse current line) as [c1 e1]. rewrite IH.
    destruct (processLines JSON_parse c1 rest) as [c2 e2].
    destruct (processLines JSON_parse c2 lines2) as [c3 e3].
    by rewrite app_assoc.
Qed.

Lemma processLines_blank (current : value) :
  processLines JSON_parse current [""] = (current, []).
Proof. reflexivity. Qed.

(** The lines of a chunk that ends with a line feed are done with when
    the chunk is: what follows is decoded as if it came alone. *)
Lemma processLines_aligned (current : value) (body rest : string) :
  processLines JSON_parse current (split_lines ((body +:+ String LF "") +:+ rest))
  = let '(current1, events1) :=
      processLines JSON_parse current (split_lines (body +:+ String LF "")) in
    let '(current2, events2) := processLines JSON_parse current1 (split_lines rest) in
    (current2, events1 ++ events2).
Proof.
  destruct (scan_ends_with_lf body) as [Htail _].
  rewrite !split_lines_scan, scan_app, Htail, append_nil_l. simpl.
  rewrite <- app_assoc, !processLines_app.
  destruct (processLines JSON_parse current (scan (body +:+ String LF "")).1)
    as [c1 e1].
  rewrite processLines_blank.
  destruct (processLines JSON_parse c1 (scan rest).1) as [c2 e2].
  rewrite app_nil_r.
  by destruct (processLines JSON_parse c2 [(scan rest).2]) as [c3 e3].
Qed.

Lemma handle_stdout (chunk : string) (m : t) :
  (handle JSON_parse (StdoutData chunk) m).2
  = map (Emit "event") (processLines JSON_parse (sessionId m) (split_lines chunk)).2
  /\ sessionId (handle JSON_parse (StdoutData chunk) m).1
     = (processLines JSON_parse (sessionId m) (split_lines chunk)).1.
Proof.
  simpl. unfold parseJsonStream. simpl.
  by destruct (processLines JSON_parse (sessionId m) (split_lines chunk)).
Qed.

(** X7. When every chunk of the output ends with a line feed, the manager
    emits the same events and stores the same session id as for the whole
    output in one chunk. *)
Theorem line_aligned_chunks_decode_alike (chunks : list string) (m : t) :
  Forall (fun chunk => exists body, chunk = body +:+ String LF "") chunks ->
  (handleAll JSON_parse (map StdoutData chunks) m).2
  = (handle JSON_parse (StdoutData (concat_chunks chunks)) m).2
  /\ sessionId (handleAll JSON_parse (map StdoutData chunks) m).1
     = sessionId (handle JSON_parse (StdoutData (concat_chunks chunks)) m).1.
Proof.
  intros Haligned. revert m.
  induction Haligned as [|chunk rest [body ->] _ IH]; intros m.
  - destruct (handle_stdout "" m) as [Hev Hsid]. simpl concat_chunks.
    rewrite Hev, Hsid. done.
  - cbn [map handleAll concat_chunks].
    destruct (handle_stdout (body +:+ String LF "") m) as [Hev1 Hsid1].
    destruct (handle_stdout ((body +:+ String LF "") +:+ concat_chunks rest) m)
      as [Hev Hsid].
    rewrite Hev, Hsid, processLines_aligned.
    destruct (handle JSON_parse (StdoutData (body +:+ String LF "")) m)
      as [m1 effs1].
    destruct (IH m1) as [IHev IHsid].
    destruct (handle_stdout (concat_chunks rest) m1) as [Hev2 Hsid2].
    destruct (handleAll JSON_parse (map StdoutData rest) m1) as [m2 effs2].
    simpl in *.
    destruct (processLines JSON_parse (sessionId m)
                (split_lines (body +:+ String LF ""))) as [c1 e1].
    simpl in *. subst c1.
    destruct (processLines JSON_parse (sessionId m1)
                (split_lines (concat_chunks rest))) as [c2 e2].
    simpl in *. rewrite map_app. split; congruence.
Qed.

End AlignedChunks.

(** ** One job at a time *)

Section Jobs.
Import JsString ClaudeManager.
Variable JSON_parse : string -> option value.
Variable spawn_stdin : string -> list value -> string -> bool.

Lemma handle_output_isProcessing (ev : ProcessEvent) (m : t) :
  isOutput ev = true -> isProcessing (handle JSON_parse ev m).1 = isProcessing m.
Proof.
  destruct ev as [chunk|chunk|code signal|message stack]; try done; intros _; simpl.
  unfold parseJsonStream. simpl. by destruct (processLines _ _ _).
Qed.

Lemma handleAll_output_isProcessing (evs : list ProcessEvent) (m : t) :
  forallb isOutput evs = true ->
  isProcessing (handleAll JSON_parse evs m).1 = isProcessing m.
Proof.
  revert m. induction evs as [|ev rest IH]; intros m Hout; simpl; [done|].
  simpl in Hout. apply andb_true_iff in Hout as [Hev Hrest].
  pose proof (handle_output_isProcessing ev m Hev) as Hstep.
  destruct (handle JSON_parse ev m) as [m1 effs1].
  specialize (IH m1 Hrest). destruct (handleAll JSON_parse rest m1) as [m2 effs2].
  simpl in *. congruence.
Qed.

(** X8. From the message that starts a job until the child exits or fails,
    whatever the child writes, every further message is rejected as busy
    and spawns nothing. *)
Theorem busy_until_the_child_is_gone
    (m : t) (now : Z) (message : string) (output : list ProcessEvent)
    (now' : Z) (message' : string) :
  isBusy m = false ->
  forallb isOutput output = true ->
  let working := (handleAll JSON_parse output
                    (sendMessage spawn_stdin now message m).1.2).1 in
  (sendMessage spawn_stdin now message m).1.1 = Normal tt
  /\ sendMessage spawn_stdin now' message' working = (Throw busyError, working, []).
Proof.
  intros Hidle Hout working. unfold isBusy in Hidle.
  split; [unfold sendMessage; by rewrite Hidle|].
  assert (Hbusy : isProcessing working = true).
  { unfold working. rewrite handleAll_output_isProcessing by done.
    unfold sendMessage. by rewrite Hidle. }
  unfold sendMessage at 1. by rewrite Hbusy.
Qed.

End Jobs.

(** ** What changes the stored session id, and what stops the child *)

Section TokenAndStop.
Import JsString ClaudeManager.
Variable JSON_parse : string -> option value.
Variable spawn_stdin : string -> list value -> string -> bool.

Lemma decodedRecords_without_stdout (evs : list ProcessEvent) :
  forallb silent_on_stdout evs = true -> decodedRecords JSON_parse evs = [].
Proof.
  induction evs as [|ev rest IH]; simpl; [done|].
  intros Hsilent. apply andb_true_iff in Hsilent as [Hev Hrest].
  destruct ev; try done; by apply IH.
Qed.

(** X9. Only the standard output of the child changes the stored session id:
    error output, even when it holds records, an exit with any code and a
    process error leave it, and with it the arguments of the next spawn,
    as they were. *)
Theorem only_stdout_changes_the_token (evs : list ProcessEvent) (m : t) :
  forallb silent_on_stdout evs = true ->
  getSessionId (handleAll JSON_parse evs m).1 = getSessionId m
  /\ buildArgs (handleAll JSON_parse evs m).1 = buildArgs m.
Proof.
  intros Hsilent.
  assert (Hsid : sessionId (handleAll JSON_parse evs m).1 = sessionId m).
  { by rewrite handleAll_sessionId, decodedRecords_without_stdout. }
  split; [done|].
  unfold buildArgs. by rewrite Hsid, handleAll_config.
Qed.

Lemma handle_only_emits (ev : ProcessEvent) (m : t) (eff : Effect) :
  In eff (handle JSON_parse ev m).2 -> exists name event, eff = Emit name event.
Proof.
  destruct ev as [chunk|chunk|code signal|message stack]; simpl.
  - unfold parseJsonStream. simpl. destruct (processLines _ _ _) as [sid events].
    simpl. rewrite in_map_iff. intros (event & <- & _). by eexists _, _.
  - done.
  - destruct code as [[| |]|]; simpl; intros [<-|[]]; by eexists _, _.
  - intros [<-|[]]. by eexists _, _.
Qed.

Lemma handleAll_only_emits (evs : list ProcessEvent) (m : t) (eff : Effect) :
  In eff (handleAll JSON_parse evs m).2 -> exists name event, eff = Emit name event.
Proof.
  revert m. induction evs as [|ev rest IH]; intros m; simpl; [done|].
  pose proof (handle_only_emits ev m eff) as Hstep.
  destruct (handle JSON_parse ev m) as [m1 effs1].
  specialize (IH m1). destruct (handleAll JSON_parse rest m1) as [m2 effs2].
  simpl in *. rewrite in_app_iff. intros [Hin|Hin]; auto.
Qed.

Lemma handle_keeps_child (ev : ProcessEvent) (m : t) :
  currentProcess m <> None -> currentProcess (handle JSON_parse ev m).1 <> None.
Proof.
  intros Hchild. destruct (currentProcess m) as [child|] eqn:Hc; [|done].
  destruct ev as [chunk|chunk|code signal|message stack]; simpl.
  - unfold parseJsonStream. simpl. destruct (processLines _ _ _). simpl.
    by rewrite Hc.
  - by rewrite Hc.
  - destruct code as [[| |]|]; simpl; by rewrite Hc.
  - by rewrite Hc.
Qed.

Lemma handleAll_keeps_child (evs : list ProcessEvent) (m : t) :
  currentProcess m <> None -> currentProcess (handleAll JSON_parse evs m).1 <> None.
Proof.
  revert m. induction evs as [|ev rest IH]; intros m Hchild; simpl; [done|].
  pose proof (handle_keeps_child ev m Hchild) as Hstep.
  destruct (handle JSON_parse ev m) as [m1 effs1].
  specialize (IH m1 Hstep). by destruct (handleAll JSON_parse rest m1).
Qed.

(** X10. [stop()] on a manager that has had a child, running or not: the first
    thing it does is to send SIGTERM; it sends SIGKILL if and only if the
    wait times out; it spawns nothing and writes to no child; the manager
    is idle afterwards and still holds the handle of the child, so that
    the next [stop()] signals again. *)
Theorem stop_signals_the_child (wait : StopWait) (m : t) :
  currentProcess m <> None ->
  exists effs,
    (stop JSON_parse wait m).2 = Kill "SIGTERM" :: effs
    /\ (In (Kill "SIGKILL") effs <-> exists before, wait = TimedOut before)
    /\ (forall eff, In eff effs ->
        eff = Kill "SIGKILL" \/ exists name event, eff = Emit name event)
    /\ isBusy (stop JSON_parse wait m).1 = false
    /\ currentProcess (stop JSON_parse wait m).1 <> None.
Proof.
  intros Hchild. unfold stop.
  destruct (currentProcess m) as [child|] eqn:Hc; [|done].
  destruct wait as [before code signal|before].
  - pose proof (handleAll_only_emits before m) as Honly.
    pose proof (handleAll_keeps_child before m ltac:(by rewrite Hc)) as Hkeep.
    destruct (handleAll JSON_parse before m) as [m1 effs1].
    pose proof (handle_only_emits (Exit code signal) m1) as Hexit.
    pose proof (handle_keeps_child (Exit code signal) m1 Hkeep) as Hkeep2.
    destruct (handle JSON_parse (Exit code signal) m1) as [m2 effs2].
    simpl in *. eexists. split; [done|].
    assert (Hemit : forall eff, In eff (effs1 ++ effs2) ->
                      exists name event, eff = Emit name event).
    { intros eff. rewrite in_app_iff. intros [Hin|Hin]; auto. }
    split_and!; try done.
    + split.
      * intros Hin. by destruct (Hemit _ Hin) as (name & event & Heq).
      * by intros [? ?].
    + intros eff Hin. right. by apply Hemit.
  - pose proof (handleAll_only_emits before m) as Honly.
    pose proof (handleAll_keeps_child before m ltac:(by rewrite Hc)) as Hkeep.
    destruct (handleAll JSON_parse before m) as [m1 effs1].
    simpl in *. destruct (currentProcess m1) as [child1|] eqn:Hc1; [|done].
    eexists. split; [done|]. split_and!; try done.
    + split; [by eexists|]. intros _. rewrite in_app_iff. right. by left.
    + intros eff. rewrite in_app_iff. intros [Hin|[<-|[]]]; [right; auto|by left].
Qed.

End TokenAndStop.

(** ** Every manager that can be reached *)

Section Reachable.
Import JsString ClaudeManager ManagerRun.
Variable JSON_parse : string -> option value.
Variable spawn_stdin : string -> list value -> string -> bool.

Lemma handle_isStarted (ev : ProcessEvent) (m : t) :
  isStarted (handle JSON_parse ev m).1 = isStarted m.
Proof.
  destruct ev as [chunk|chunk|code signal|message stack]; simpl; try done.
  - unfold parseJsonStream. simpl. by destruct (processLines _ _ _).
  - by destruct code as [[| |]|].
Qed.

Lemma handleAll_isStarted (evs : list ProcessEvent) (m : t) :
  isStarted (handleAll JSON_parse evs m).1 = isStarted m.
Proof.
  revert m. induction evs as [|ev rest IH]; intros m; simpl; [done|].
  pose proof (handle_isStarted ev m) as Hstep.
  destruct (handle JSON_parse ev m) as [m1 effs1].
  specialize (IH m1). destruct (handleAll JSON_parse rest m1). simpl in *. congruence.
Qed.

Lemma stop_isStarted (wait : StopWait) (m : t) :
  isStarted (stop JSON_parse wait m).1 = isStarted m.
Proof.
  unfold stop. destruct (currentProcess m); [|done].
  destruct wait as [before code signal|before].
  - pose proof (handleAll_isStarted before m) as H1.
    destruct (handleAll JSON_parse before m) as [m1 effs1].
    pose proof (handle_isStarted (Exit code signal) m1) as H2.
    destruct (handle JSON_parse (Exit code signal) m1) as [m2 effs2].
    simpl in *. congruence.
  - pose proof (handleAll_isStarted before m) as H1.
    by destruct (handleAll JSON_parse before m) as [m1 effs1].
Qed.

Lemma handle_busy_has_child (ev : ProcessEvent) (m : t) :
  (isProcessing m = true -> currentProcess m <> None) ->
  isProcessing (handle JSON_parse ev m).1 = true ->
  currentProcess (handle JSON_parse ev m).1 <> None.
Proof.
  intros Hinv.
  destruct ev as [chunk|chunk|code signal|message stack]; simpl.
  - unfold parseJsonStream. simpl. destruct (processLines _ _ _). simpl.
    intros Hbusy. specialize (Hinv Hbusy). by destruct (currentProcess m).
  - intros Hbusy. specialize (Hinv Hbusy). by destruct (currentProcess m).
  - by destruct code as [[| |]|].
  - done.
Qed.

Lemma step_sound (cfg : ClaudeManagerConfig) (a : Action) (m : t) :
  sound cfg m -> sound cfg (step JSON_parse spawn_stdin a m).1.
Proof.
  intros [Hinv Hcfg]. destruct a as [now|now message|ev|wait|wait]; simpl.
  - done.
  - unfold sendMessage. destruct (isProcessing m) eqn:Hbusy; simpl.
    + split; [intros _; by apply Hinv|done].
    + by split.
  - split; [by apply handle_busy_has_child|]. by rewrite handle_config.
  - split; [|by rewrite stop_config].
    destruct (currentProcess m) as [child|] eqn:Hc.
    + rewrite stop_idle; [done|]. by rewrite Hc.
    + rewrite stop_without_child by done. simpl. intros Hbusy.
      by specialize (Hinv Hbusy).
  - unfold restart.
    pose proof (stop_config JSON_parse wait m) as Hc1.
    destruct (currentProcess m) as [child|] eqn:Hc.
    + pose proof (stop_idle JSON_parse wait m ltac:(by rewrite Hc)) as Hidle.
      destruct (stop JSON_parse wait m) as [m1 effs]. simpl in *.
      split; [intros Hbusy; simpl in Hbusy; congruence|simpl; congruence].
    + rewrite stop_without_child by done. simpl. split; [|done].
      intros Hbusy. by specialize (Hinv Hbusy).
Qed.

Lemma run_sound (cfg : ClaudeManagerConfig) (actions : list Action) (m : t) :
  sound cfg m -> sound cfg (run JSON_parse spawn_stdin actions m).1.
Proof.
  revert m. induction actions as [|a rest IH]; intros m Hm; simpl; [done|].
  pose proof (step_sound cfg a m Hm) as Hstep.
  destruct (step JSON_parse spawn_stdin a m) as [m1 effs1].
  specialize (IH m1 Hstep). by destruct (run JSON_parse spawn_stdin rest m1).
Qed.

Lemma step_isStarted (a : Action) (m : t) :
  isStarted m = true -> isStarted (step JSON_parse spawn_stdin a m).1 = true.
Proof.
  intros Hs. destruct a as [now|now message|ev|wait|wait]; simpl.
  - done.
  - unfold sendMessage. by destruct (isProcessing m).
  - by rewrite handle_isStarted.
  - by rewrite stop_isStarted.
  - unfold restart. pose proof (stop_isStarted wait m) as H1.
    destruct (stop JSON_parse wait m). simpl in *. congruence.
Qed.

(** X11. In every manager reached from a new one by calls of its methods and
    events of its children, in any order, a busy manager holds the handle
    of a child and the configuration is the one given; hence [restart()]
    always leaves it idle, and the message sent next is accepted and
    spawns the child without a continuation flag. *)
Theorem reachable_manager_restarts_clean
    (cfg : ClaudeManagerConfig) (actions : list Action)
    (wait : StopWait) (now : Z) (message : string) :
  let m := (run JSON_parse spawn_stdin actions (create cfg)).1 in
  (isBusy m = true -> currentProcess m <> None)
  /\ config m = cfg
  /\ isBusy (restart JSON_parse wait m).1 = false
  /\ exists m2 effs,
       sendMessage spawn_stdin now message (restart JSON_parse wait m).1
       = (Normal tt, m2,
          Spawn (claudePath cfg) (map VString (printModeArgs ++ default [] (args cfg)))
                (workingDirectory cfg) :: effs).
Proof.
  intros m.
  assert (Hsound : sound cfg m) by (apply run_sound; by split).
  destruct Hsound as [Hinv Hcfg].
  assert (Hrestart : sound cfg (step JSON_parse spawn_stdin (Restart wait) m).1)
    by (apply step_sound; by split).
  simpl in Hrestart. destruct Hrestart as [_ Hcfg'].
  assert (Hidle : isProcessing (restart JSON_parse wait m).1 = false).
  { unfold restart. destruct (currentProcess m) as [child|] eqn:Hc.
    - pose proof (stop_idle JSON_parse wait m ltac:(by rewrite Hc)) as Hstop.
      by destruct (stop JSON_parse wait m).
    - rewrite stop_without_child by done. simpl.
      destruct (isProcessing m) eqn:Hbusy; [|done].
      by specialize (Hinv eq_refl). }
  assert (Hsid : sessionId (restart JSON_parse wait m).1 = VNull).
  { unfold restart. by destruct (stop JSON_parse wait m). }
  split_and!; try done.
  unfold sendMessage. rewrite Hidle. unfold buildArgs.
  rewrite Hsid, Hcfg'. simpl. rewrite app_nil_r. by eexists _, _.
Qed.

(** X12. Once started, a manager is alive for good: no call and no event of a
    child makes [isAlive()] false again, busy or not. *)
Theorem alive_once_started (now : Z) (actions : list Action) (m : t) :
  isAlive (run JSON_parse spawn_stdin (Start now :: actions) m).1 = true.
Proof.
  assert (Hrun : forall acts m', isStarted m' = true ->
                   isStarted (run JSON_parse spawn_stdin acts m').1 = true).
  { induction acts as [|a rest IH]; intros m' Hs; simpl; [done|].
    pose proof (step_isStarted a m' Hs) as Hstep.
    destruct (step JSON_parse spawn_stdin a m') as [m1 effs1].
    specialize (IH m1 Hstep). by destruct (run JSON_parse spawn_stdin rest m1). }
  unfold isAlive. cbn [run step start].
  specialize (Hrun actions
    {| config := config m; currentProcess := currentProcess m;
       sessionId := sessionId m; isProcessing := isProcessing m;
       isStarted := true; startTime := now; lastActivity := now |} eq_refl).
  by destruct (run JSON_parse spawn_stdin actions _).
Qed.

End Reachable.

(** ** User messages *)

Section UserMessages.
Import JsString ClaudeManager.
Variable JSON_parse : string -> option value.

Lemma emitBlocks_toolResults (blocks : list value) :
  Forall (fun b => is_nullish b = false) blocks ->
  emitBlocks toolResultBlockToEvent blocks = flat_map toolResultEvents blocks.
Proof.
  induction 1 as [|b rest Hb _ IH]; simpl; [done|].
  unfold toolResultEvents at 1.
  destruct (toolResultBlockToEvent b) as [[event|]|err] eqn:Hev; simpl.
  - by rewrite IH.
  - done.
  - unfold toolResultBlockToEvent in Hev. rewrite (get_normal b "type" Hb) in Hev.
    simpl in Hev.
    destruct (is_str _ "tool_result"); [by rewrite (get_normal b _ Hb) in Hev|done].
Qed.

(** X13. A decoded user message with an array of content blocks, none of them
    [null], gives one [tool_result] event for each block of type
    [tool_result], in block order, with the content of the block (or the
    empty string when the block has none), and nothing for the other
    blocks. *)
Theorem user_message_gives_tool_results
    (line : string) (data current : value) (blocks : list value) :
  decodeLine JSON_parse line = Some data ->
  field data "type" = VString "user" ->
  field (field data "message") "content" = VArray blocks ->
  Forall (fun b => is_nullish b = false) blocks ->
  (processLine JSON_parse current line).2 = flat_map toolResultEvents blocks
  /\ (forall block, In block blocks ->
      toolResultEvents block
      = if is_str (field block "type") "tool_result"
        then [ToolResultEvent (or (field block "content") (VString "")) VUndefined]
        else []).
Proof.
  intros Hline Hty Hcontent Hblocks. split.
  - unfold processLine. rewrite Hline. simpl. unfold recordEvents.
    destruct (is_nullish data) eqn:Hdata; [by destruct data|].
    rewrite !(get_normal data _ Hdata). simpl. rewrite get_opt_field. simpl.
    rewrite Hty, Hcontent. simpl. by apply emitBlocks_toolResults.
  - intros block Hin. rewrite Forall_forall in Hblocks.
    assert (Hb : is_nullish block = false).
    { apply Hblocks. by apply list_elem_of_In. }
    unfold toolResultEvents, toolResultBlockToEvent.
    rewrite !(get_normal block _ Hb). simpl.
    by destruct (is_str (field block "type") "tool_result").
Qed.

End UserMessages.

(** ** Subscribers *)

Section Subscribers.
Import SSEManager.
Context {Response : Type} `{ResponseLike Response}.
Variable JSON_stringify : ClaudeEvent -> string.

(** X15. [removeClient] never raises, whether [end()] throws or not; it takes
    the client off and leaves the others; removing a client again, or one
    that was never there, changes nothing. *)
Theorem removeClient_is_idempotent (clientId : string) (clients : gmap string Response) :
  exists after : gmap string Response,
    removeClient clientId clients = Normal after
    /\ after !! clientId = None
    /\ (forall k, k <> clientId -> after !! k = clients !! k)
    /\ removeClient clientId after = Normal after
    /\ (clients !! clientId = None -> after = clients).
Proof.
  exists (delete clientId clients). rewrite !removeClient_delete.
  split_and!; try done.
  - apply lookup_delete_eq.
  - intros k Hk. by apply lookup_delete_ne.
  - f_equal. apply delete_id, lookup_delete_eq.
  - apply delete_id.
Qed.

(** X16. [sendToClient] never raises and touches one client only: an unknown
    id changes nothing, a push that succeeds leaves the client with its
    response after the frame, a push that fails removes the client. *)
Theorem sendToClient_touches_one_client
    (clientId : string) (event : ClaudeEvent) (clients : gmap string Response) :
  exists after : gmap string Response,
    sendToClient JSON_stringify clientId event clients = Normal after
    /\ after !! clientId = clients !! clientId ≫= delivered JSON_stringify event
    /\ (forall k, k <> clientId -> after !! k = clients !! k)
    /\ (clients !! clientId = None -> after = clients).
Proof.
  destruct (broadcastTo_lookup JSON_stringify event clientId clients)
    as (after & Hsend & Hid & Hother).
  exists after. split_and!; try done.
  intros Hnone. apply map_eq. intros k.
  destruct (decide (k = clientId)) as [->|Hk]; [|by apply Hother].
  by rewrite Hid, Hnone.
Qed.

(** X17. A client that [addClient] registers holds the response with the four
    stream headers and the [connected] frame, and the next broadcast is
    pushed to it; when the [connected] frame cannot be written
    [addClient] raises. *)
Theorem registered_client_is_served
    (clientId : string) (res : Response) (event : ClaudeEvent)
    (clients : gmap string Response) :
  let prepared :=
    setHeader
      (setHeader
         (setHeader (setHeader res "Content-Type" "text/event-stream")
                    "Cache-Control" "no-cache")
         "Connection" "keep-alive")
      "X-Accel-Buffering" "no" in
  match sendEvent JSON_stringify prepared (ConnectedEvent clientId) with
  | Throw err => addClient JSON_stringify clientId res clients = Throw err
  | Normal greeted =>
      exists registered after : gmap string Response,
        addClient JSON_stringify clientId res clients = Normal registered
        /\ registered !! clientId = Some greeted
        /\ (forall k, k <> clientId -> registered !! k = clients !! k)
        /\ broadcast JSON_stringify event registered = Normal after
        /\ after !! clientId = delivered JSON_stringify event greeted
  end.
Proof.
  intros prepared. unfold addClient. fold prepared.
  destruct (sendEvent JSON_stringify prepared (ConnectedEvent clientId))
    as [greeted|err]; simpl; [|done].
  eexists _, _. split; [done|]. split; [by rewrite lookup_insert_eq|].
  split; [intros k Hk; by rewrite lookup_insert_ne|].
  split; [apply broadcast_omap|].
  by rewrite lookup_omap, lookup_insert_eq.
Qed.

Lemma omap_omap_bind (f g : Response -> option Response) (m : gmap string Response) :
  omap g (omap f m) = omap (fun r => f r ≫= g) m.
Proof.
  apply map_eq. intros k. rewrite !lookup_omap. by destruct (m !! k).
Qed.

(** X18. Two broadcasts in a row: a subscriber is left with what the second
    push makes of what the first push left, so that it gets the frames in
    the order of the broadcasts; one that fails at the first event is gone
    and is not tried again. *)
Theorem broadcasts_compose_in_order
    (first second : ClaudeEvent) (clients : gmap string Response) :
  (clients1 ← broadcast JSON_stringify first clients;
   broadcast JSON_stringify second clients1)
  = Normal (omap (fun res => delivered JSON_stringify first res
                             ≫= delivered JSON_stringify second) clients).
Proof.
  rewrite broadcast_omap. simpl. rewrite broadcast_omap. f_equal.
  apply omap_omap_bind.
Qed.

(** X19. A broadcast adds no subscriber: who is registered afterwards was
    registered before, and the count does not grow. *)
Theorem broadcast_adds_nobody (event : ClaudeEvent) (clients : gmap string Response) :
  exists after : gmap string Response,
    broadcast JSON_stringify event clients = Normal after
    /\ (forall id, is_Some (after !! id) -> is_Some (clients !! id))
    /\ (getClientCount after <= getClientCount clients)%nat.
Proof.
  exists (omap (delivered JSON_stringify event) clients).
  split; [apply broadcast_omap|].
  assert (Hsub : forall id,
             is_Some (omap (delivered JSON_stringify event) clients !! id) ->
             is_Some (clients !! id)).
  { intros id. rewrite lookup_omap. destruct (clients !! id); [by eexists|].
    by intros [? ?]. }
  split; [done|].
  unfold getClientCount. rewrite <- !size_dom.
  apply subseteq_size. intros id. rewrite !elem_of_dom. apply Hsub.
Qed.

End Subscribers.

(** ** The HTTP front *)

Section Front.
Import ClaudeManager SSEManager ProxyServer.
Context {Response : Type} `{ResponseLike Response}.
Variable JSON_stringify : ClaudeEvent -> string.
Variable JSON_parse : string -> option value.
Variable spawn_stdin : string -> list value -> string -> bool.

Lemma deliveredAll_cons (event : ClaudeEvent) (events : list ClaudeEvent) (res : Response) :
  deliveredAll JSON_stringify (event :: events) res
  = delivered JSON_stringify event res ≫= deliveredAll JSON_stringify events.
Proof.
  unfold deliveredAll. simpl.
  destruct (delivered JSON_stringify event res) as [res'|]; simpl; [done|].
  induction events as [|e rest IH]; simpl; [done|]. exact IH.
Qed.

Lemma deliveredAll_app (events1 events2 : list ClaudeEvent) (res : Response) :
  deliveredAll JSON_stringify (events1 ++ events2) res
  = deliveredAll JSON_stringify events1 res ≫= deliveredAll JSON_stringify events2.
Proof.
  revert res. induction events1 as [|e rest IH]; intros res; [done|].
  rewrite <- app_comm_cons, !deliveredAll_cons.
  destruct (delivered JSON_stringify e res) as [res'|]; simpl; [apply IH|done].
Qed.

(** The listener hands the events on in the order of emission: every
    subscriber is left with what the pushes of all the events, one after
    the other, leave of it. *)
Lemma forwardEffects_in_order (effs : list Effect) (clients : gmap string Response) :
  forwardEffects JSON_stringify effs clients
  = Normal (omap (deliveredAll JSON_stringify (forwardedEvents effs)) clients).
Proof.
  revert clients. induction effs as [|eff rest IH]; intros clients; simpl.
  - f_equal. apply map_eq. intros k. rewrite lookup_omap.
    by destruct (clients !! k).
  - destruct eff as [command argv cwd|message| |signal|name event]; simpl;
      try apply IH.
    destruct (String.eqb name "event"); [|apply IH].
    rewrite broadcast_omap. simpl. rewrite IH. f_equal.
    rewrite omap_omap_bind. apply map_eq. intros k. rewrite !lookup_omap.
    destruct (clients !! k) as [res|]; simpl; [|done].
    by rewrite deliveredAll_cons.
Qed.

Lemma forwardedEvents_emit (events : list ClaudeEvent) :
  forwardedEvents (map (Emit "event") events) = events.
Proof. induction events as [|e rest IH]; simpl; [done|]. by f_equal. Qed.

(** X20. From the child to the subscribers: when a chunk of output arrives,
    the server never raises, and every subscriber is left with what the
    pushes of the events decoded from the chunk, in decoding order, leave
    of it; a subscriber whose push fails is removed and the others are
    served all the same. *)
Theorem decoded_events_reach_the_subscribers
    (chunk : string) (m : ClaudeManager.t) (server : ProxyServer.t Response) :
  claudeManager server = Some m ->
  let decoded := (processLines JSON_parse (sessionId m) (JsString.split_lines chunk)).2 in
  exists server' : ProxyServer.t Response,
    onChild JSON_stringify JSON_parse (StdoutData chunk) server
    = Normal (server', map (Emit "event") decoded)
    /\ claudeManager server' = Some (handle JSON_parse (StdoutData chunk) m).1
    /\ sseManager server'
       = omap (deliveredAll JSON_stringify decoded) (sseManager server).
Proof.
  intros Hm decoded. unfold onChild. rewrite Hm.
  destruct (handle_stdout JSON_parse chunk m) as [Hev _].
  destruct (handle JSON_parse (StdoutData chunk) m) as [m' effs]. simpl in *.
  rewrite forwardEffects_in_order. simpl. subst effs.
  rewrite forwardedEvents_emit. by eexists.
Qed.

(** X21. A chat request is checked before anything else: without a message,
    or with the empty string, the reply is 400 whatever the state of the
    manager; with a message that is neither a string nor absent, or with
    no body at all, the handler fails with 500. In all these cases
    nothing is registered, nothing is spawned and the server is as it
    was. *)
Theorem chat_request_is_checked_first
    (body : value) (clientId : string) (now : Z) (res : Response)
    (server : ProxyServer.t Response) :
  (is_nullish body = false ->
   (is_nullish (field body "message") = true \/ field body "message" = VString "") ->
   handleChat JSON_stringify spawn_stdin body clientId now res server
   = (BadRequest, server, []))
  /\ (is_nullish body = false ->
      is_nullish (field body "message") = false ->
      (forall text, field body "message" <> VString text) ->
      exists err,
        handleChat JSON_stringify spawn_stdin body clientId now res server
        = (InternalError err, server, []))
  /\ (is_nullish body = true ->
      exists err,
        handleChat JSON_stringify spawn_stdin body clientId now res server
        = (InternalError err, server, [])).
Proof.
  unfold handleChat, bodyMessage. split_and!.
  - intros Hbody Hmsg. rewrite (get_normal body "message" Hbody). simpl.
    destruct Hmsg as [Hnull| ->]; [|done].
    by destruct (field body "message").
  - intros Hbody Hmsg Hnot. rewrite (get_normal body "message" Hbody). simpl.
    destruct (field body "message") as [| |b|q|text|items|fields];
      try done; try by eexists.
    by destruct (Hnot text).
  - intros Hbody. destruct (get_nullish body "message" Hbody) as [err ->].
    by eexists.
Qed.

End Front.

Section Orchestration.
Import ClaudeManager SSEManager ProxyServer.
Context {Response : Type} `{ResponseLike Response}.
Variable JSON_stringify : ClaudeEvent -> string.
Variable JSON_parse : string -> option value.
Variable spawn_stdin : string -> list value -> string -> bool.


(** X23. A chat request that meets a started, idle manager: the subscriber is
    registered with its greeted response, the manager becomes busy and
    holds the handle of the child, and the child is spawned with the
    arguments of the manager; when the handle has an input stream, the
    text of the message is written to it and the stream is ended, and when
    it has none, nothing is written. *)
Theorem chat_starts_a_job
    (text clientId : string) (now : Z) (res greeted : Response)
    (m : ClaudeManager.t) (server : ProxyServer.t Response) :
  text <> "" ->
  claudeManager server = Some m ->
  isAlive m = true ->
  isBusy m = false ->
  sendEvent JSON_stringify (prepared res) (ConnectedEvent clientId) = Normal greeted ->
  let piped :=
    spawn_stdin (claudePath (config m)) (buildArgs m) (workingDirectory (config m)) in
  exists m' : ClaudeManager.t,
    handleChat JSON_stringify spawn_stdin (VObject [("message", VString text)])
      clientId now res server
    = (Streaming,
       {| claudeManager := Some m';
          sseManager := <[clientId := greeted]> (sseManager server);
          ProxyServer.startTime := ProxyServer.startTime server |},
       Spawn (claudePath (config m)) (buildArgs m) (workingDirectory (config m))
         :: (if piped then [StdinWrite text; StdinEnd] else []))
    /\ isBusy m' = true
    /\ getSessionId m' = getSessionId m
    /\ currentProcess m'
       = Some {| stdin := piped; stdoutBuffer := ""; stderrBuffer := "" |}
    /\ (piped = true ->
        (handleChat JSON_stringify spawn_stdin (VObject [("message", VString text)])
           clientId now res server).2
        = [Spawn (claudePath (config m)) (buildArgs m) (workingDirectory (config m));
           StdinWrite text; StdinEnd])
    /\ (piped = false ->
        (handleChat JSON_stringify spawn_stdin (VObject [("message", VString text)])
           clientId now res server).2
        = [Spawn (claudePath (config m)) (buildArgs m) (workingDirectory (config m))]).
Proof.
  intros Htext Hm Halive Hidle Hgreet piped.
  unfold handleChat, bodyMessage. simpl.
  destruct (String.eqb text "") eqn:Hempty; [by apply String.eqb_eq in Hempty|].
  rewrite Hm, Halive. simpl.
  unfold addClient. unfold prepared in Hgreet. rewrite Hgreet. simpl.
  unfold isBusy in Hidle. unfold sendMessage. rewrite Hidle. simpl.
  fold piped.
  eexists. split; [done|]. split_and!; try done.
  - by intros ->.
  - by intros ->.
Qed.

(** X24. A reset: the session id of the manager is cleared; the subscribers
    first get what the manager emits while its child is stopped, then the
    reset status, each of them all of it in this order unless a push to it
    fails. Without a manager the reply is 400. When the reply to the
    request cannot be sent, the session id is cleared all the same and no
    reset status is broadcast; the handler then tries the 500 reply, and
    when that cannot be sent either, it throws. *)
Theorem reset_reaches_every_subscriber
    (wait : StopWait) (respond : ResetReply -> completion unit)
    (server : ProxyServer.t Response) :
  (claudeManager server = None ->
   respond ReplyNotInitialized = Normal tt ->
   handleReset JSON_stringify JSON_parse wait respond server
   = (Normal NotInitialized, server, []))
  /\ (forall m : ClaudeManager.t,
      claudeManager server = Some m ->
      let stopped := restart JSON_parse wait m in
      let heard :=
        {| claudeManager := Some stopped.1;
           sseManager :=
             omap (deliveredAll JSON_stringify (forwardedEvents stopped.2))
                  (sseManager server);
           ProxyServer.startTime := ProxyServer.startTime server |} in
      getSessionId stopped.1 = VNull
      /\ (respond ReplyReset = Normal tt ->
          handleReset JSON_stringify JSON_parse wait respond server
          = (Normal ResetDone,
             {| claudeManager := Some stopped.1;
                sseManager :=
                  omap (deliveredAll JSON_stringify
                          (forwardedEvents stopped.2 ++ [resetStatus]))
                       (sseManager server);
                ProxyServer.startTime := ProxyServer.startTime server |},
             stopped.2))
      /\ (forall err : string,
          respond ReplyReset = Throw err ->
          respond (ReplyFailed err) = Normal tt ->
          handleReset JSON_stringify JSON_parse wait respond server
          = (Normal (ResetFailed err), heard, stopped.2))
      /\ (forall err err' : string,
          respond ReplyReset = Throw err ->
          respond (ReplyFailed err) = Throw err' ->
          handleReset JSON_stringify JSON_parse wait respond server
          = (Throw err', heard, stopped.2))).
Proof.
  unfold handleReset. split.
  { by intros -> ->. }
  intros m ->. cbv zeta.
  assert (Hsid : sessionId (restart JSON_parse wait m).1 = VNull).
  { unfold restart. by destruct (stop JSON_parse wait m). }
  destruct (restart JSON_parse wait m) as [m1 effs].
  simpl in *. rewrite forwardEffects_in_order.
  split_and!; try done.
  - intros ->. rewrite broadcast_omap.
    assert (Hclients :
              omap (delivered JSON_stringify resetStatus)
                (omap (deliveredAll JSON_stringify (forwardedEvents effs))
                   (sseManager server))
              = omap (deliveredAll JSON_stringify (forwardedEvents effs ++ [resetStatus]))
                  (sseManager server)); [|by rewrite Hclients].
    rewrite omap_omap_bind. apply map_eq. intros k. rewrite !lookup_omap.
    destruct (sseManager server !! k) as [res|]; simpl; [|done].
    rewrite deliveredAll_app.
    destruct (deliveredAll JSON_stringify (forwardedEvents effs) res) as [res'|];
      simpl; [|done].
    rewrite deliveredAll_cons. by destruct (delivered JSON_stringify resetStatus res').
  - intros err -> Hfailed. unfold resetFailed. by rewrite Hfailed.
  - intros err err' -> Hfailed. unfold resetFailed. by rewrite Hfailed.
Qed.

End Orchestration.

(** ** Error records *)

Section ErrorRecords.
Import ClaudeManager.

(** X14. A record of type [error] becomes an [error] event, with its [error]
    field or else its [message] field, only when none of its fields
    [thinking], [tool], [result] and [text] is truthy: these are tested
    first, so that an error record with a [text] is reported as a
    message. *)
Theorem error_record_is_mapped_last (data : value) :
  field data "type" = VString "error" ->
  truthy (field data "thinking") = false ->
  truthy (field data "tool") = false ->
  truthy (field data "result") = false ->
  recordEvents data
  = if truthy (field data "text")
    then [MessageEvent (or (or (field data "content") (field data "text")) (VString ""))]
    else [ErrorEvent (or (or (field data "error") (field data "message")) (VString ""))
                     VUndefined].
Proof.
  intros Hty Hthinking Htool Hresult.
  assert (Hdata : is_nullish data = false) by (by destruct data).
  unfold recordEvents.
  rewrite !(get_normal data _ Hdata). simpl. rewrite get_opt_field. simpl.
  rewrite Hty. simpl.
  unfold jsonToEvent. rewrite !(get_normal data _ Hdata). simpl.
  rewrite Hty, Hthinking, Htool, Hresult. simpl.
  by destruct (truthy (field data "text")).
Qed.

End ErrorRecords.

(** * The further properties on concrete streams *)

Lemma unfinished_line_is_held_back_witness :
  OutputParser.parseJsonStream Json.parse
    {| OutputParser.buffer := ""; OutputParser.jsonBuffer := Json.text "{'type':";
       OutputParser.isJsonMode := true |}
    (Json.text "'message','con")
  = ([], {| OutputParser.buffer := "";
            OutputParser.jsonBuffer := Json.text "{'type':" +:+ Json.text "'message','con";
            OutputParser.isJsonMode := true |}).
Proof.
  apply (unfinished_line_is_held_back Json.parse
           {| OutputParser.buffer := ""; OutputParser.jsonBuffer := Json.text "{'type':";
              OutputParser.isJsonMode := true |}
           (Json.text "'message','con")).
  - vm_compute. intuition discriminate.
  - vm_compute. intuition discriminate.
Defined.


Lemma message_is_emitted_at_once_witness :
  OutputParser.extractNextEvent Json.parse ("Assistant: " +:+ "The answer is")
  = Some (MessageEvent (VString (JsString.trim "The answer is")), "").
Proof.
  apply (message_is_emitted_at_once Json.parse "The answer is").
  vm_compute. intuition discriminate.
Defined.

Lemma line_aligned_chunks_decode_alike_witness :
  (ClaudeManager.handleAll Json.parse
     (map ClaudeManager.StdoutData
        [Json.text "{'type':'system','session_id':'abc'}~";
         Json.text "{'type':'message','content':'hi'}~"])
     Scenario.busy).2
  = (ClaudeManager.handle Json.parse
       (ClaudeManager.StdoutData
          (JsString.concat_chunks
             [Json.text "{'type':'system','session_id':'abc'}~";
              Json.text "{'type':'message','content':'hi'}~"]))
       Scenario.busy).2
  /\ ClaudeManager.sessionId
       (ClaudeManager.handleAll Json.parse
          (map ClaudeManager.StdoutData
             [Json.text "{'type':'system','session_id':'abc'}~";
              Json.text "{'type':'message','content':'hi'}~"])
          Scenario.busy).1
     = ClaudeManager.sessionId
         (ClaudeManager.handle Json.parse
            (ClaudeManager.StdoutData
               (JsString.concat_chunks
                  [Json.text "{'type':'system','session_id':'abc'}~";
                   Json.text "{'type':'message','content':'hi'}~"]))
            Scenario.busy).1.
Proof.
  apply (line_aligned_chunks_decode_alike Json.parse
           [Json.text "{'type':'system','session_id':'abc'}~";
            Json.text "{'type':'message','content':'hi'}~"]
           Scenario.busy).
  repeat constructor.
  - exists (Json.text "{'type':'system','session_id':'abc'}"). reflexivity.
  - exists (Json.text "{'type':'message','content':'hi'}"). reflexivity.
Defined.

Lemma busy_until_the_child_is_gone_witness :
  (ClaudeManager.sendMessage Scenario.spawn_stdin 2000 "hello" Scenario.started).1.1
  = Normal tt
  /\ ClaudeManager.sendMessage Scenario.spawn_stdin 3000 "again"
       (ClaudeManager.handleAll Json.parse
          [ClaudeManager.StdoutData (Json.text "{'type':'message','content':'hi'}~");
           ClaudeManager.StderrData "warning"]
          (ClaudeManager.sendMessage Scenario.spawn_stdin 2000 "hello"
             Scenario.started).1.2).1
     = (Throw ClaudeManager.busyError,
        (ClaudeManager.handleAll Json.parse
           [ClaudeManager.StdoutData (Json.text "{'type':'message','content':'hi'}~");
            ClaudeManager.StderrData "warning"]
           (ClaudeManager.sendMessage Scenario.spawn_stdin 2000 "hello"
              Scenario.started).1.2).1,
        []).
Proof.
  apply (busy_until_the_child_is_gone Json.parse Scenario.spawn_stdin
           Scenario.started 2000 "hello"
           [ClaudeManager.StdoutData (Json.text "{'type':'message','content':'hi'}~");
            ClaudeManager.StderrData "warning"]
           3000 "again"); reflexivity.
Defined.

Lemma only_stdout_changes_the_token_witness :
  ClaudeManager.getSessionId
    (ClaudeManager.handleAll Json.parse
       [ClaudeManager.StderrData (Json.text "{'session_id':'zzz'}~");
        ClaudeManager.Exit (Some 1%Z) None]
       (ClaudeManager.set_sessionId (VString "abc") Scenario.busy)).1
  = VString "abc"
  /\ ClaudeManager.buildArgs
       (ClaudeManager.handleAll Json.parse
          [ClaudeManager.StderrData (Json.text "{'session_id':'zzz'}~");
           ClaudeManager.Exit (Some 1%Z) None]
          (ClaudeManager.set_sessionId (VString "abc") Scenario.busy)).1
     = ClaudeManager.buildArgs (ClaudeManager.set_sessionId (VString "abc") Scenario.busy).
Proof.
  apply (only_stdout_changes_the_token Json.parse
           [ClaudeManager.StderrData (Json.text "{'session_id':'zzz'}~");
            ClaudeManager.Exit (Some 1%Z) None]
           (ClaudeManager.set_sessionId (VString "abc") Scenario.busy)).
  reflexivity.
Defined.

Lemma stop_signals_the_child_witness :
  exists effs,
    (ClaudeManager.stop Json.parse (ClaudeManager.TimedOut []) Scenario.busy).2
    = ClaudeManager.Kill "SIGTERM" :: effs
    /\ In (ClaudeManager.Kill "SIGKILL") effs.
Proof.
  destruct (stop_signals_the_child Json.parse (ClaudeManager.TimedOut []) Scenario.busy)
    as (effs & Hstop & Hkill & _).
  - discriminate.
  - exists effs. split; [exact Hstop|]. apply Hkill. by exists [].
Defined.

Lemma user_message_gives_tool_results_witness :
  (ClaudeManager.processLine Json.parse VNull
     (Json.text "{'type':'user','message':{'content':[{'type':'text','text':'t'},{'type':'tool_result','content':'ok'}]}}")).2
  = [ToolResultEvent (VString "ok") VUndefined].
Proof.
  destruct (user_message_gives_tool_results Json.parse
              (Json.text "{'type':'user','message':{'content':[{'type':'text','text':'t'},{'type':'tool_result','content':'ok'}]}}")
              (VObject
                 [("type", VString "user");
                  ("message",
                   VObject
                     [("content",
                       VArray
                         [VObject [("type", VString "text"); ("text", VString "t")];
                          VObject [("type", VString "tool_result");
                                   ("content", VString "ok")]])])])
              VNull
              [VObject [("type", VString "text"); ("text", VString "t")];
               VObject [("type", VString "tool_result"); ("content", VString "ok")]])
    as [Hevents _].
  - by vm_compute.
  - by vm_compute.
  - by vm_compute.
  - repeat constructor.
  - rewrite Hevents. reflexivity.
Defined.

Lemma decoded_events_reach_the_subscribers_witness :
  exists server' : ProxyServer.t Sink.t,
    ProxyServer.onChild Sink.stringify Json.parse
      (ClaudeManager.StdoutData
         (Json.text "{'type':'assistant','message':{'content':[{'type':'thinking','thinking':'x'},{'type':'text','text':'y'}]}}~"))
      (ProxyServer.mk (Some Scenario.busy)
         (<["a" := Sink.live]> (<["b" := Sink.dead]> ∅)) 1000)
    = Normal (server',
              [ClaudeManager.Emit "event" (ThinkingEvent (VString "x"));
               ClaudeManager.Emit "event" (MessageEvent (VString "y"))])
    /\ Sink.received <$> (ProxyServer.sseManager server' !! "a")
       = Some [Json.text "event: thinking~"; Json.text "data: {'type':'thinking'}~~";
               Json.text "event: message~"; Json.text "data: {'type':'message'}~~"]
    /\ ProxyServer.sseManager server' !! "b" = None.
Proof.
  destruct (decoded_events_reach_the_subscribers Sink.stringify Json.parse
              (Json.text "{'type':'assistant','message':{'content':[{'type':'thinking','thinking':'x'},{'type':'text','text':'y'}]}}~")
              Scenario.busy
              (ProxyServer.mk (Some Scenario.busy)
                 (<["a" := Sink.live]> (<["b" := Sink.dead]> ∅)) 1000)
              eq_refl) as (server' & Hchild & _ & Hclients).
  exists server'. split; [exact Hchild|].
  rewrite Hclients. split; by vm_compute.
Defined.


Lemma chat_starts_a_job_witness :
  exists m' : ClaudeManager.t,
    ProxyServer.handleChat Sink.stringify Scenario.spawn_stdin
      (VObject [("message", VString "hello")]) "c1" 3000 Sink.live
      (ProxyServer.mk (Some Scenario.started) ∅ 1000)
    = (ProxyServer.Streaming,
       ProxyServer.mk (Some m')
         (<["c1" := {| Sink.connected := true;
                       Sink.headers := [("Content-Type", "text/event-stream");
                                        ("Cache-Control", "no-cache");
                                        ("Connection", "keep-alive");
                                        ("X-Accel-Buffering", "no")];
                       Sink.received := [Json.text "event: connected~";
                                         Json.text "data: {'type':'connected'}~~"];
                       Sink.ended := false |}]> ∅) 1000,
       [ClaudeManager.Spawn "claude" (map VString ClaudeManager.printModeArgs)
          "/workspace";
        ClaudeManager.StdinWrite "hello";
        ClaudeManager.StdinEnd])
    /\ ClaudeManager.isBusy m' = true.
Proof.
  destruct (chat_starts_a_job Sink.stringify Scenario.spawn_stdin
              "hello" "c1" 3000 Sink.live
              {| Sink.connected := true;
                 Sink.headers := [("Content-Type", "text/event-stream");
                                  ("Cache-Control", "no-cache");
                                  ("Connection", "keep-alive");
                                  ("X-Accel-Buffering", "no")];
                 Sink.received := [Json.text "event: connected~";
                                   Json.text "data: {'type':'connected'}~~"];
                 Sink.ended := false |}
              Scenario.started
              (ProxyServer.mk (Some Scenario.started) ∅ 1000))
    as (m' & Hchat & Hbusy & _); try reflexivity.
  - discriminate.
  - exists m'. split; [exact Hchat|exact Hbusy].
Defined.

Lemma reset_reaches_every_subscriber_witness :
  ProxyServer.handleReset Sink.stringify Json.parse
    (ClaudeManager.Exited [] None (Some "SIGTERM"))
    (fun _ => Throw "write EPIPE")
    (ProxyServer.mk
       (Some (ClaudeManager.set_sessionId (VString "abc") Scenario.busy))
       (<["a" := Sink.live]> (<["b" := Sink.dead]> ∅)) 1000)
  = (Throw "write EPIPE",
     ProxyServer.mk
       (Some (ClaudeManager.set_isProcessing false Scenario.busy))
       (<["a" := {| Sink.connected := true; Sink.headers := [];
                    Sink.received := [Json.text "event: error~";
                                      Json.text "data: {'type':'error'}~~"];
                    Sink.ended := false |}]> ∅) 1000,
     [ClaudeManager.Kill "SIGTERM";
      ClaudeManager.Emit "event"
        (ErrorEvent (VString "Claude exited with code null") VUndefined)])
  /\ ProxyServer.handleReset Sink.stringify Json.parse
       (ClaudeManager.Exited [] None (Some "SIGTERM"))
       (fun _ => Normal tt)
       (ProxyServer.mk
          (Some (ClaudeManager.set_sessionId (VString "abc") Scenario.busy))
          (<["a" := Sink.live]> (<["b" := Sink.dead]> ∅)) 1000)
     = (Normal ProxyServer.ResetDone,
        ProxyServer.mk
          (Some (ClaudeManager.set_isProcessing false Scenario.busy))
          (<["a" := {| Sink.connected := true; Sink.headers := [];
                       Sink.received := [Json.text "event: error~";
                                         Json.text "data: {'type':'error'}~~";
                                         Json.text "event: status~";
                                         Json.text "data: {'type':'status'}~~"];
                       Sink.ended := false |}]> ∅) 1000,
        [ClaudeManager.Kill "SIGTERM";
         ClaudeManager.Emit "event"
           (ErrorEvent (VString "Claude exited with code null") VUndefined)]).
Proof.
  split.
  - destruct (proj2
                (reset_reaches_every_subscriber Sink.stringify Json.parse
                   (ClaudeManager.Exited [] None (Some "SIGTERM"))
                   (fun _ => Throw "write EPIPE")
                   (ProxyServer.mk
                      (Some (ClaudeManager.set_sessionId (VString "abc") Scenario.busy))
                      (<["a" := Sink.live]> (<["b" := Sink.dead]> ∅)) 1000))
                _ eq_refl) as (_ & _ & _ & Hthrown).
    rewrite (Hthrown "write EPIPE" "write EPIPE" eq_refl eq_refl).
    by vm_compute.
  - destruct (proj2
                (reset_reaches_every_subscriber Sink.stringify Json.parse
                   (ClaudeManager.Exited [] None (Some "SIGTERM"))
                   (fun _ => Normal tt)
                   (ProxyServer.mk
                      (Some (ClaudeManager.set_sessionId (VString "abc") Scenario.busy))
                      (<["a" := Sink.live]> (<["b" := Sink.dead]> ∅)) 1000))
                _ eq_refl) as (_ & Hdone & _).
    rewrite (Hdone eq_refl).
    by vm_compute.
Defined.

Lemma error_record_is_mapped_last_witness :
  ClaudeManager.recordEvents
    (VObject [("type", VString "error"); ("error", VString "boom");
              ("text", VString "details")])
  = [MessageEvent (VString "details")].
Proof.
  rewrite (error_record_is_mapped_last
             (VObject [("type", VString "error"); ("error", VString "boom");
                       ("text", VString "details")]));
    reflexivity.
Defined.
